(** * utilities/files.py: the [IOFiles] helpers over a model of the file system

    The Python class [IOFiles] reads and writes raw text, JSON documents and
    pandas frames, one file at a time or for every matching file of a
    directory, synchronously or through asyncio.

    The embedding is shallow.  Every method of [IOFiles] is a computation in a
    small state-and-exception monad [M] over a [world]: the directory tree,
    the lines printed so far, and the list of per-file methods entered so
    far.  [try ... except] is [try_except]; an exception that no handler
    matches is the [inl] outcome of the computation.

    What is not part of utilities/files.py is environment:
    - the operating system ([open], [os.listdir], [os.makedirs],
      [os.path.exists], ...) is modelled by a tree of directories and regular
      files with POSIX path resolution (no symbolic links, no permissions,
      the working directory is the root of the tree, names are compared
      byte for byte, text is stored as written);
    - the [json] module and the pandas codecs are fields of the class
      [Libs]: the development is parametric in them.

    The tree is more permissive than an operating system: it takes every
    name (a real [open] refuses a NUL and a name longer than NAME_MAX),
    every regular file holds text (a real [read] raises
    [UnicodeDecodeError] on bytes that do not decode), and every directory
    can be listed (a real [os.listdir] needs the permission).  A statement
    that needs one of these calls to succeed is conditioned on the outcome
    of the call itself -- [open(path, "w")] succeeds, [read] returns a
    text, [os.listdir] returns, no diagnostic was printed -- and not on the
    tree alone.  In the same way the tasks of [asyncio.gather]
    are run in one order, that of the list; the statements about the
    asynchronous helpers speak neither of the order of the lines printed
    nor of which exception is raised when several tasks fail.  Of the
    failures of [json.loads] only [JSONDecodeError] is modelled, and the
    pandas readers are taken to return frames. *)

From Stdlib Require Import Ascii String.
From stdpp Require Import base option list strings gmap.

Local Open Scope string_scope.
Local Open Scope list_scope.
Set Warnings "-register-all,-clear-no-such-hyp".
Local Arguments String.append !_ _ : simpl nomatch.

(** ** Python strings *)

Definition slash : ascii := "/"%char.
Definition dot : ascii := "."%char.
Definition CR : ascii := "013"%char.
Definition LF : ascii := "010"%char.
Definition NUL : ascii := "000"%char.

(** [s.startswith(p)] *)
Fixpoint str_startswith (s p : string) {struct p} : bool :=
  match p, s with
  | EmptyString, _ => true
  | String _ _, EmptyString => false
  | String b p', String a s' => bool_decide (a = b) && str_startswith s' p'
  end.

(** [s.endswith(p)]: [p] starts at offset [len(s) - len(p)]. *)
Fixpoint str_drop (n : nat) (s : string) : string :=
  match n, s with
  | S n', String _ s' => str_drop n' s'
  | _, _ => s
  end.

Definition str_endswith (s p : string) : bool :=
  bool_decide (String.length p ≤ String.length s)%nat
  && bool_decide (str_drop (String.length s - String.length p) s = p).

(** [c in s] for a character. *)
Fixpoint str_has (c : ascii) (s : string) : bool :=
  match s with
  | EmptyString => false
  | String a s' => bool_decide (a = c) || str_has c s'
  end.

(** [p in s] for a substring. *)
Fixpoint str_contains (p s : string) : bool :=
  str_startswith s p ||
  match s with
  | EmptyString => false
  | String _ s' => str_contains p s'
  end.

(** [s.replace(old, new)] for a non-empty [old]: the occurrences are found
    from the left and do not overlap.  [skip] counts the characters of the
    occurrence under the cursor that are still to be dropped. *)
Fixpoint replace_from (old new : string) (skip : nat) (s : string) : string :=
  match s with
  | EmptyString => EmptyString
  | String a s' =>
      match skip with
      | S k => replace_from old new k s'
      | O =>
          if str_startswith s old
          then new +:+ replace_from old new (String.length old - 1) s'
          else String a (replace_from old new 0 s')
      end
  end.

(** With an empty [old] Python puts [new] before every character and at the
    end. *)
Fixpoint intersperse_str (new s : string) : string :=
  match s with
  | EmptyString => new
  | String a s' => new +:+ String a (intersperse_str new s')
  end.

Definition str_replace (old new s : string) : string :=
  match old with
  | EmptyString => intersperse_str new s
  | String _ _ => replace_from old new 0 s
  end.

(** [s.split("/")]: never the empty list. *)
Fixpoint split_slash (s : string) : list string :=
  match s with
  | EmptyString => [EmptyString]
  | String a s' =>
      if bool_decide (a = slash) then EmptyString :: split_slash s'
      else match split_slash s' with
           | [] => [String a EmptyString]
           | c :: cs => String a c :: cs
           end
  end.

(** What a text-mode [read()] returns for the stored characters: with the
    default [newline=None] the sequences CR LF and CR become LF. *)
Fixpoint universal_newlines (s : string) : string :=
  match s with
  | EmptyString => EmptyString
  | String a s' =>
      if bool_decide (a = CR) then
        match s' with
        | String b s'' =>
            if bool_decide (b = LF) then String LF (universal_newlines s'')
            else String LF (universal_newlines s')
        | EmptyString => String LF EmptyString
        end
      else String a (universal_newlines s')
  end.

(** [os.path.join(a, b)] of posixpath. *)
Definition os_path_join (a b : string) : string :=
  if str_startswith b "/" then b
  else if bool_decide (a = "") || str_endswith a "/" then a +:+ b
  else a +:+ "/" +:+ b.

(** ** Python values *)

(** A pandas frame: column names and rows of cells.  [pd.DataFrame()] is
    [empty_frame]. *)
Record frame := Frame { columns : list string; rows : list (list string) }.

Definition empty_frame : frame := Frame [] [].

(** The values the helpers read and write: the JSON-compatible ones (floats
    are left out) and frames. *)
Inductive pyval :=
| PNone
| PBool (b : bool)
| PInt (n : Z)
| PStr (s : string)
| PList (l : list pyval)
| PDict (items : list (string * pyval))
| PFrame (f : frame).

(** ** Exceptions *)

Inductive exn :=
| FileNotFoundError (filename : string)
| IsADirectoryError (filename : string)
| NotADirectoryError (filename : string)
| FileExistsError (filename : string)
| JSONDecodeError
| TypeError (msg : string)
| ValueError (msg : string)
| AttributeError (msg : string).

(** [str(e)], as the f-strings of the diagnostics print it. *)
Definition exn_str (e : exn) : string :=
  match e with
  | FileNotFoundError f => "[Errno 2] No such file or directory: '" +:+ f +:+ "'"
  | IsADirectoryError f => "[Errno 21] Is a directory: '" +:+ f +:+ "'"
  | NotADirectoryError f => "[Errno 20] Not a directory: '" +:+ f +:+ "'"
  | FileExistsError f => "[Errno 17] File exists: '" +:+ f +:+ "'"
  | JSONDecodeError => "Expecting value"
  | TypeError m => m
  | ValueError m => m
  | AttributeError m => m
  end.

(** ** The json module and the pandas codecs *)

Inductive tabular := Csv | Pickle | Xlsx.

Class Libs := {
  (** [json.dumps(data, indent=indent)]: the text, or the text produced
      before a value that is not serialisable is met ([TypeError]). *)
  json_encode : nat → pyval → string * bool;
  (** [json.loads(text)]; [None] is [json.JSONDecodeError]. *)
  json_loads : string → option pyval;
  (** The decoders behind [pd.read_csv], [pd.read_pickle], [pd.read_excel],
      from the bytes of the file; [inl] is the exception they raise. *)
  pd_decode : tabular → string → exn + frame;
  (** The encoders behind [to_csv(index=False)], [to_pickle],
      [to_excel(index=False)]. *)
  pd_encode : tabular → frame → exn + string;
}.

(** ** The file system *)

Inductive node :=
| File (data : string)
| Dir (entries : list (string * node)).

Definition is_dir (n : node) : bool :=
  match n with Dir _ => true | File _ => false end.

Fixpoint assoc (c : string) (es : list (string * node)) : option node :=
  match es with
  | [] => None
  | (c', n) :: es' => if decide (c = c') then Some n else assoc c es'
  end.

(** The node at a location: the names from the root down. *)
Fixpoint get (n : node) (loc : list string) : option node :=
  match loc with
  | [] => Some n
  | c :: loc' =>
      match n with
      | Dir es => match assoc c es with Some n' => get n' loc' | None => None end
      | File _ => None
      end
  end.

(** Replace the entry named [c], or add it at the end. *)
Fixpoint put_entry (c : string) (new : node) (es : list (string * node))
  : list (string * node) :=
  match es with
  | [] => [(c, new)]
  | (c', n) :: es' =>
      if decide (c = c') then (c, new) :: es' else (c', n) :: put_entry c new es'
  end.

(** Store [new] at [loc]; the parent of [loc] has to be a directory. *)
Fixpoint put (n : node) (loc : list string) (new : node) : node :=
  match loc with
  | [] => new
  | c :: loc' =>
      match n with
      | Dir es =>
          match loc' with
          | [] => Dir (put_entry c new es)
          | _ :: _ =>
              match assoc c es with
              | Some n' => Dir (put_entry c (put n' loc' new) es)
              | None => n
              end
          end
      | File _ => n
      end
  end.

(** Path resolution.  The state is the location reached and the node there,
    [None] when the last name is not in its directory (the path can be
    created).  [filename] is only what the raised error reports. *)
Definition walk_state : Type := exn + (list string * option node).

Definition step (root : node) (filename : string) (st : walk_state) (c : string)
  : walk_state :=
  match st with
  | inl e => inl e
  | inr (_, None) => inl (FileNotFoundError filename)
  | inr (_, Some (File _)) => inl (NotADirectoryError filename)
  | inr (loc, Some (Dir es)) =>
      if bool_decide (c = "") || bool_decide (c = ".") then st
      else if bool_decide (c = "..")
           then inr (removelast loc, get root (removelast loc))
           else inr (loc ++ [c], assoc c es)
  end.

Definition locate_from (root : node) (filename : string) (cs : list string)
  : walk_state :=
  foldl (step root filename) (inr ([], Some root)) cs.

(** The empty path names nothing (ENOENT). *)
Definition locate (root : node) (path : string) : walk_state :=
  if bool_decide (path = "") then inl (FileNotFoundError path)
  else locate_from root path (split_slash path).

(** ** Worlds and the monad of the helpers *)

(** The per-file methods of [IOFiles], as entries of the call log. *)
Inductive call :=
| Call_read_file (path : string)
| Call_write_file (path : string)
| Call_read_file_async (path : string)
| Call_write_file_async (path : string)
| Call_read_json (path : string)
| Call_write_json (path : string)
| Call_read_json_async (path : string)
| Call_write_json_async (path : string)
| Call_read_df (path dtype : string)
| Call_write_df (path dtype : string).

Definition is_tabular_call (c : call) : bool :=
  match c with
  | Call_read_df _ _ | Call_write_df _ _ => true
  | _ => false
  end.

Record world := World {
  fs : node;                (* the root directory *)
  stdout : list string;     (* the lines printed, oldest first *)
  calls : list call;        (* the per-file methods entered, oldest first *)
}.

Definition M (A : Type) : Type := world → world * (exn + A).

Definition ret {A} (a : A) : M A := λ w, (w, inr a).

Definition bind {A B} (m : M A) (k : A → M B) : M B :=
  λ w, match m w with
       | (w', inr a) => k a w'
       | (w', inl e) => (w', inl e)
       end.

Definition raise {A} (e : exn) : M A := λ w, (w, inl e).

(** [try: m  except ...: h e]; a handler re-raises what no clause matches. *)
Definition try_except {A} (m : M A) (h : exn → M A) : M A :=
  λ w, match m w with
       | (w', inr a) => (w', inr a)
       | (w', inl e) => h e w'
       end.

Global Instance M_ret : MRet M := @ret.
Global Instance M_bind : MBind M := λ A B k m, bind m k.

Definition print (line : string) : M unit :=
  λ w, (World (fs w) (stdout w ++ [line]) (calls w), inr ()).

Definition enter (c : call) : M unit :=
  λ w, (World (fs w) (stdout w) (calls w ++ [c]), inr ()).

Definition lift_os {A} (f : node → exn + A) : M A :=
  λ w, (w, f (fs w)).

(** [for x in xs: acc = body(acc, x)] *)
Fixpoint for_each {A B} (xs : list B) (body : A → B → M A) (acc : A) : M A :=
  match xs with
  | [] => mret acc
  | x :: xs' => acc' ← body acc x; for_each xs' body acc'
  end.

(** ** Operating-system calls *)

Definition path_exists (root : node) (path : string) : bool :=
  match locate root path with
  | inr (_, Some _) => true
  | _ => false
  end.

Definition path_isdir (root : node) (path : string) : bool :=
  match locate root path with
  | inr (_, Some (Dir _)) => true
  | _ => false
  end.

(** [os.path.exists] and [os.path.isdir] answer [False] where [os.stat]
    fails. *)
Definition os_path_exists (path : string) : M bool :=
  lift_os (λ root, inr (path_exists root path)).

Definition os_path_isdir (path : string) : M bool :=
  lift_os (λ root, inr (path_isdir root path)).

Definition os_listdir (path : string) : M (list string) :=
  lift_os (λ root,
    match locate root path with
    | inr (_, Some (Dir es)) => inr (es.*1)
    | inr (_, Some (File _)) => inl (NotADirectoryError path)
    | inr (_, None) => inl (FileNotFoundError path)
    | inl e => inl e
    end).

(** The bytes of a regular file: what [open(path, "rb").read()] returns. *)
Definition read_bytes (path : string) : M string :=
  lift_os (λ root,
    match locate root path with
    | inr (_, Some (File data)) => inr data
    | inr (_, Some (Dir _)) => inl (IsADirectoryError path)
    | inr (_, None) => inl (FileNotFoundError path)
    | inl e => inl e
    end).

(** [open(path, "r")] followed by [read()]. *)
Definition read_text (path : string) : M string :=
  data ← read_bytes path; mret (universal_newlines data).

(** [open(path, "w")]: the file is created, or emptied if it is there. *)
Definition open_w (path : string) : M (list string) :=
  λ w, match locate (fs w) path with
       | inr (loc, Some (File _)) | inr (loc, None) =>
           (World (put (fs w) loc (File "")) (stdout w) (calls w), inr loc)
       | inr (_, Some (Dir _)) => (w, inl (IsADirectoryError path))
       | inl e => (w, inl e)
       end.

(** [file.write(text)] on the file opened at [loc]. *)
Definition append_at (loc : list string) (text : string) : M unit :=
  λ w, match get (fs w) loc with
       | Some (File data) =>
           (World (put (fs w) loc (File (data +:+ text))) (stdout w) (calls w), inr ())
       | _ => (w, inr ())
       end.

(** [os.mkdir] on the components of a path. *)
Definition mkdir_at (filename : string) (cs : list string) : M unit :=
  λ w, match locate_from (fs w) filename cs with
       | inr (loc, None) =>
           (World (put (fs w) loc (Dir [])) (stdout w) (calls w), inr ())
       | inr (_, Some _) => (w, inl (FileExistsError filename))
       | inl e => (w, inl e)
       end.

Definition exists_at (cs : list string) : M bool :=
  lift_os (λ root, inr match locate_from root "" cs with
                       | inr (_, Some _) => true
                       | _ => false
                       end).

(** [os.makedirs(name)] with [exist_ok=False], on the components of [name] in
    reverse: [tail] is the last component and [rhead] the head that
    [os.path.split] returns.  An empty [tail] (a trailing or doubled slash)
    is split off first, and [os.mkdir] takes the path without it; a head that
    does not exist is created by the recursive call, whose
    [FileExistsError] is passed over; a [tail] of "." after that returns at
    once; then [os.mkdir(name)]. *)
Fixpoint makedirs_rev (filename : string) (rcs : list string) : M unit :=
  let mk := mkdir_at filename (reverse rcs) in
  match rcs with
  | [] => raise (FileNotFoundError filename)
  | tail :: rhead =>
      match rhead with
      | [] => mk
      | _ :: _ =>
          if bool_decide (tail = "") then makedirs_rev filename rhead
          else
            ex ← exists_at (reverse rhead);
            if ex : bool then mk
            else
              try_except (makedirs_rev filename rhead)
                (λ e, match e with
                      | FileExistsError _ => mret ()
                      | _ => raise e
                      end);;
              if bool_decide (tail = ".") then mret () else mk
      end
  end.

Definition os_makedirs (name : string) : M unit :=
  if bool_decide (name = "") then raise (FileNotFoundError name)
  else makedirs_rev name (reverse (split_slash name)).

(** [asyncio.gather] over the tasks, under the schedule that runs them one
    after the other in the order given: every task runs to its end, nothing
    is cancelled, and the first exception among the outcomes is raised to
    the awaiting caller.  When the tasks touch distinct files, as those of
    [IOFiles] do for identifiers that are distinct file names, another
    order leaves the same files; it changes the order of the lines printed
    and, when several tasks fail, which exception is raised. *)
Fixpoint run_all {A} (tasks : list (M A)) (w : world) : world * list (exn + A) :=
  match tasks with
  | [] => (w, [])
  | t :: ts =>
      let '(w1, r) := t w in
      let '(w2, rs) := run_all ts w1 in
      (w2, r :: rs)
  end.

Fixpoint first_exception {A} (rs : list (exn + A)) : exn + list A :=
  match rs with
  | [] => inr []
  | inl e :: _ => inl e
  | inr a :: rs' =>
      match first_exception rs' with
      | inl e => inl e
      | inr l => inr (a :: l)
      end
  end.

Definition gather {A} (tasks : list (M A)) : M (list A) :=
  λ w, let '(w', rs) := run_all tasks w in (w', first_exception rs).

(** A dict built from items in order: a later item replaces an earlier one
    with the same key. *)
Definition dict_of_items (items : list (string * pyval)) : gmap string pyval :=
  foldl (λ d kv, <[kv.1 := kv.2]> d) ∅ items.

(** ** utilities/files.py *)

(** The methods below follow the class line by line.  The suite of each
    [try] statement is a definition of its own, named after the method. *)

(** [IOFiles.read_file]; the suite is [read_text path]. *)
Definition read_file (path : string) : M string :=
  enter (Call_read_file path);;
  try_except (read_text path)
    (λ e, match e with
          | FileNotFoundError _ => print ("File not found: " +:+ path)
          | _ => print ("Error Reading File: " +:+ exn_str e)
          end;;
          mret "").

(** [file.write(data)] wants a [str]. *)
Definition write_file_try (path : string) (data : pyval) : M unit :=
  loc ← open_w path;
  match data with
  | PStr text => append_at loc text
  | _ => raise (TypeError "write() argument must be str")
  end.

(** [IOFiles.write_file] *)
Definition write_file (path : string) (data : pyval) : M unit :=
  enter (Call_write_file path);;
  try_except (write_file_try path data)
    (λ e, print ("Error Writing File: " +:+ exn_str e)).

(** [IOFiles.read_file_async] *)
Definition read_file_async (path : string) : M string :=
  enter (Call_read_file_async path);;
  try_except (read_text path)
    (λ e, match e with
          | FileNotFoundError _ => print ("File not found: " +:+ path)
          | _ => print ("Error Reading File: " +:+ exn_str e)
          end;;
          mret "").

(** [IOFiles.write_file_async] *)
Definition write_file_async (path : string) (data : pyval) : M unit :=
  enter (Call_write_file_async path);;
  try_except (write_file_try path data)
    (λ e, print ("Error Writing File: " +:+ exn_str e)).

(** [json.load(file)], and [json.loads(await file.read())]. *)
Definition read_json_try `{Libs} (path : string) : M pyval :=
  text ← read_text path;
  match json_loads text with
  | Some v => mret v
  | None => raise JSONDecodeError
  end.

(** [IOFiles.read_json]: only [FileNotFoundError] and
    [json.JSONDecodeError] have a handler. *)
Definition read_json `{Libs} (path : string) : M pyval :=
  enter (Call_read_json path);;
  try_except (read_json_try path)
    (λ e, match e with
          | FileNotFoundError _ => print ("File not found: " +:+ path);; mret (PDict [])
          | JSONDecodeError => print ("File is corrupted: " +:+ path);; mret (PDict [])
          | _ => raise e
          end).

(** [json.dump(data, file, indent=indent)] writes what it has produced when
    it meets a value it cannot serialise. *)
Definition write_json_try `{Libs} (path : string) (data : pyval) (indent : nat)
  : M unit :=
  loc ← open_w path;
  let '(text, complete) := json_encode indent data in
  append_at loc text;;
  if complete : bool then mret ()
  else raise (TypeError "Object is not JSON serializable").

(** [IOFiles.write_json] *)
Definition write_json `{Libs} (path : string) (data : pyval) (indent : nat) : M unit :=
  enter (Call_write_json path);;
  let path := if str_endswith path ".json" then path else path +:+ ".json" in
  try_except (write_json_try path data indent)
    (λ e, print ("Error Writing JSON: " +:+ exn_str e)).

(** [IOFiles.read_json_async] *)
Definition read_json_async `{Libs} (path : string) : M pyval :=
  enter (Call_read_json_async path);;
  try_except (read_json_try path)
    (λ e, match e with
          | FileNotFoundError _ => print ("File not found: " +:+ path);; mret (PDict [])
          | JSONDecodeError => print ("File is corrupted: " +:+ path);; mret (PDict [])
          | _ => raise e
          end).

(** [await file.write(json.dumps(data, indent=indent))]: [json.dumps] runs
    before anything is written. *)
Definition write_json_async_try `{Libs} (path : string) (data : pyval) (indent : nat)
  : M unit :=
  loc ← open_w path;
  let '(text, complete) := json_encode indent data in
  if complete : bool then append_at loc text
  else raise (TypeError "Object is not JSON serializable").

(** [IOFiles.write_json_async] *)
Definition write_json_async `{Libs} (path : string) (data : pyval) (indent : nat)
  : M unit :=
  enter (Call_write_json_async path);;
  let path := if str_endswith path ".json" then path else path +:+ ".json" in
  try_except (write_json_async_try path data indent)
    (λ e, print ("Error Writing JSON: " +:+ exn_str e)).

(** [pd.read_csv(path)], [pd.read_pickle(path)], [pd.read_excel(path)] *)
Definition pd_read `{Libs} (t : tabular) (path : string) : M frame :=
  data ← read_bytes path;
  match pd_decode t data with
  | inr f => mret f
  | inl e => raise e
  end.

(** [data.to_csv(path, index=False)], [data.to_pickle(path)],
    [data.to_excel(path, index=False)]; only a frame has these methods. *)
Definition pd_write `{Libs} (t : tabular) (data : pyval) (path : string) : M unit :=
  match data with
  | PFrame f =>
      loc ← open_w path;
      match pd_encode t f with
      | inr text => append_at loc text
      | inl e => raise e
      end
  | _ => raise (AttributeError "object has no attribute 'to_csv'")
  end.

(** The suite of the [try] statement of [IOFiles.read_df]. *)
Definition read_df_try `{Libs} (path dtype : string) : M frame :=
  if bool_decide (dtype = "csv") then pd_read Csv path
  else if bool_decide (dtype = "pickle") then pd_read Pickle path
  else if bool_decide (dtype = "xlsx") then pd_read Xlsx path
  else raise (ValueError ("Invalid Dataframe dtype: " +:+ dtype)).

(** [IOFiles.read_df] *)
Definition read_df `{Libs} (path dtype : string) : M frame :=
  enter (Call_read_df path dtype);;
  try_except (read_df_try path dtype)
    (λ e, match e with
          | FileNotFoundError _ => print ("File not found: " +:+ path)
          | _ => print ("Error: " +:+ exn_str e)
          end;;
          mret empty_frame).

(** The suite of the [try] statement of [IOFiles.write_df]. *)
Definition write_df_try `{Libs} (path : string) (data : pyval) (dtype : string)
  : M unit :=
  if bool_decide (dtype = "csv") then pd_write Csv data path
  else if bool_decide (dtype = "pickle") then pd_write Pickle data path
  else if bool_decide (dtype = "xlsx") then pd_write Xlsx data path
  else raise (ValueError ("Invalid Dataframe dtype: " +:+ dtype)).

(** [IOFiles.write_df] *)
Definition write_df `{Libs} (path : string) (data : pyval) (dtype : string) : M unit :=
  enter (Call_write_df path dtype);;
  try_except (write_df_try path data dtype)
    (λ e, print ("Error Writing CSV: " +:+ exn_str e)).

Definition is_frame_dtype (dtype : string) : bool :=
  bool_decide (dtype ∈ ["csv"; "xlsx"; "pickle"]).

(** The body of the loop of [IOFiles.read_dir_contents]. *)
Definition read_entry `{Libs} (path dtype : string)
    (contents : gmap string pyval) (file : string) : M (gmap string pyval) :=
  if str_endswith file dtype then
    let ident := str_replace ("." +:+ dtype) "" file in
    if bool_decide (dtype = "json") then
      v ← read_json (os_path_join path file); mret (<[ident := v]> contents)
    else if is_frame_dtype dtype then
      f ← read_df (os_path_join path file) dtype; mret (<[ident := PFrame f]> contents)
    else
      s ← read_file (os_path_join path file); mret (<[ident := PStr s]> contents)
  else mret contents.

(** [IOFiles.read_dir_contents] *)
Definition read_dir_contents `{Libs} (path dtype : string) : M (gmap string pyval) :=
  ex ← os_path_exists path;
  isd ← os_path_isdir path;
  if ex && isd then
    files ← os_listdir path;
    for_each files (read_entry path dtype) ∅
  else mret ∅.

(** The body of the loop of [IOFiles.read_dir_contents_async]: the tasks and
    the identifiers recorded so far. *)
Definition plan_entry `{Libs} (path dtype : string)
    (acc : list (M pyval) * list string) (file : string)
  : list (M pyval) * list string :=
  let '(tasks, idents) := acc in
  if str_endswith file dtype then
    let idents :=
      idents ++ [if bool_decide (dtype ≠ "all")
                 then str_replace ("." +:+ dtype) "" file else file] in
    if bool_decide (dtype = "json") then
      (tasks ++ [read_json_async (os_path_join path file)], idents)
    else
      (tasks ++ [s ← read_file_async (os_path_join path file); mret (PStr s)], idents)
  else (tasks, idents).

(** [IOFiles.read_dir_contents_async] *)
Definition read_dir_contents_async `{Libs} (path dtype : string)
  : M (gmap string pyval) :=
  ex ← os_path_exists path;
  isd ← os_path_isdir path;
  plan ← (if ex && isd then
            files ← os_listdir path;
            mret (foldl (plan_entry path dtype) ([], []) files)
          else mret ([], []));
  results ← gather plan.1;
  mret (dict_of_items (zip plan.2 results)).

(** The body of the loop of [IOFiles.write_contents_to_dir]. *)
Definition write_entry `{Libs} (path dtype : string) (_ : unit)
    (item : string * pyval) : M unit :=
  let file_path := os_path_join path (item.1 +:+ "." +:+ dtype) in
  if bool_decide (dtype = "json") then write_json file_path item.2 4
  else if is_frame_dtype dtype then write_df file_path item.2 dtype
  else write_file file_path item.2.

(** [IOFiles.write_contents_to_dir]; [contents] is [contents.items()]. *)
Definition write_contents_to_dir `{Libs} (path : string)
    (contents : list (string * pyval)) (dtype : string) : M unit :=
  ex ← os_path_exists path;
  (if ex : bool then mret () else os_makedirs path);;
  for_each contents (write_entry path dtype) ().

(** The task [IOFiles.write_contents_to_dir_async] appends for one item. *)
Definition write_task `{Libs} (path dtype : string) (item : string * pyval) : M unit :=
  let file_path := os_path_join path (item.1 +:+ "." +:+ dtype) in
  if bool_decide (dtype = "json") then write_json_async file_path item.2 4
  else write_file_async file_path item.2.

(** [IOFiles.write_contents_to_dir_async] *)
Definition write_contents_to_dir_async `{Libs} (path : string)
    (contents : list (string * pyval)) (dtype : string) : M unit :=
  ex ← os_path_exists path;
  (if ex : bool then mret () else os_makedirs path);;
  gather (write_task path dtype <$> contents);;
  mret ().

(** ** Vocabulary of the statements *)

(** The computation returns on every world. *)
Definition never_raises {A} (m : M A) : Prop :=
  ∀ w, ∃ w' a, m w = (w', inr a).

(** The world after one more line of diagnostic. *)
Definition printed (w : world) (line : string) : world :=
  World (fs w) (stdout w ++ [line]) (calls w).

(** The world after a per-file method is entered. *)
Definition entered (w : world) (c : call) : world :=
  World (fs w) (stdout w) (calls w ++ [c]).

(** A handler that prints one line and lets the method return [default]:
    what [op] does with the outcome of its [try] suite. *)
Definition swallows {A} (c : call) (suite op : M A) (default : A) : Prop :=
  ∀ w, match suite (entered w c) with
       | (w1, inr a) => op w = (w1, inr a)
       | (w1, inl e) => ∃ line, op w = (printed w1 line, inr default)
       end.

(** The failures the JSON readers have a handler for. *)
Definition json_handled (e : exn) : bool :=
  match e with
  | FileNotFoundError _ | JSONDecodeError => true
  | _ => false
  end.

(** A node put at [q] replaces nothing, or a regular file. *)
Definition replaceable (root : node) (q : list string) : Prop :=
  match get root q with Some (Dir _) => False | _ => True end.

(** Names the writers can create in a directory. *)
Definition plain_name (name : string) : Prop :=
  str_has slash name = false ∧ name ≠ "" ∧ name ≠ "." ∧ name ≠ "..".

(** ** Sample environment *)

(** A stand-in for the json module and the pandas codecs, to run the
    helpers on examples: the JSON literals and the empty containers, and a
    one-column text format. *)
Definition sample_libs : Libs := {|
  json_encode _ v :=
    match v with
    | PNone => ("null", true)
    | PBool true => ("true", true)
    | PBool false => ("false", true)
    | PList [] => ("[]", true)
    | PDict [] => ("{}", true)
    | _ => ("", false)
    end;
  json_loads text :=
    if bool_decide (text = "null") then Some PNone
    else if bool_decide (text = "true") then Some (PBool true)
    else if bool_decide (text = "false") then Some (PBool false)
    else if bool_decide (text = "[]") then Some (PList [])
    else if bool_decide (text = "{}") then Some (PDict [])
    else None;
  pd_decode _ data :=
    if bool_decide (data = "") then inl (ValueError "No columns to parse from file")
    else inr (Frame [data] []);
  pd_encode _ f := inr (String.concat "," (columns f));
|}.

(** A tree with a regular file [notes] and a directory [data]. *)
Definition sample_root : node :=
  Dir [("notes", File "hello");
       ("data", Dir [("a.json", File "{}"); ("b.txt", File "x")])].

Definition sample_world : world := World sample_root [] [].

(** A directory with a sub-directory whose name ends with "json". *)
Definition nested_world : world :=
  World (Dir [("data", Dir [("a.json", Dir []); ("b.json", File "{}")])]) [] [].

(** A directory with one file named with the "all" sentinel as its suffix. *)
Definition all_world : world :=
  World (Dir [("data", Dir [("b.txt", File "x"); ("x.all", File "y")])]) [] [].

(** The calls a computation adds to the log all satisfy [P]. *)
Definition logs_only {A} (P : call → Prop) (m : M A) : Prop :=
  ∀ w, ∃ new, calls (m w).1 = calls w ++ new ∧ Forall P new.

(** The last component of a path, trailing slashes apart, from the
    components in reverse. *)
Fixpoint leaf_rev (rcs : list string) : string :=
  match rcs with
  | [] => ""
  | c :: rcs' => if bool_decide (c = "") then leaf_rev rcs' else c
  end.

Definition leaf (path : string) : string := leaf_rev (reverse (split_slash path)).

(** [s[:n]] *)
Fixpoint str_take (n : nat) (s : string) : string :=
  match n, s with
  | S n', String a s' => String a (str_take n' s')
  | _, _ => EmptyString
  end.

(** The identifier as the specification words it: the file name with its
    trailing "." dtype removed, and nothing else altered. *)
Definition spec_identifier (dtype file : string) : string :=
  if str_endswith file ("." +:+ dtype)
  then str_take (String.length file - String.length ("." +:+ dtype)) file
  else file.

(** A file name of the form stem "." dtype in which "." dtype occurs nowhere
    else. *)
Definition well_named (dtype file : string) : Prop :=
  ∃ stem, file = stem +:+ "." +:+ dtype ∧ str_contains ("." +:+ dtype) stem = false.

(** The identifier the readers compute. *)
Definition identifier (dtype file : string) : string :=
  str_replace ("." +:+ dtype) "" file.

(** The file name the writers give an entry. *)
Definition entry_name (dtype ident : string) : string := ident +:+ "." +:+ dtype.

(** What the writers store for a value: the text itself, or its JSON
    serialisation with an indent of 4. *)
Definition stored_text `{Libs} (dtype : string) (v : pyval) : string :=
  if bool_decide (dtype = "json") then (json_encode 4 v).1
  else match v with PStr text => text | _ => "" end.

(** A value the stored text gives back: for the json dtype the value is
    serialisable and [json.loads] inverts [json.dumps] on it; for a raw-text
    dtype the value is a [str].  The stored text has no carriage return,
    which a text-mode [read()] would turn into a line feed. *)
Definition round_trips `{Libs} (dtype : string) (v : pyval) : Prop :=
  str_has CR (stored_text dtype v) = false ∧
  if bool_decide (dtype = "json")
  then (json_encode 4 v).2 = true ∧ json_loads (stored_text dtype v) = Some v
  else v = PStr (stored_text dtype v).

(** An identifier that is a file name: no separator, no NUL. *)
Definition file_name (ident : string) : Prop :=
  str_has slash ident = false ∧ str_has NUL ident = false.

(** The entries the writers add for the items of a mapping. *)
Definition new_entries `{Libs} (dtype : string) (contents : list (string * pyval))
  : list (string * node) :=
  (λ item, (entry_name dtype item.1, File (stored_text dtype item.2))) <$> contents.

(** The target of a write that can be read back as it was written: a path
    that does not exist and that [os.makedirs] creates, or a directory none
    of whose entries ends with the dtype. *)
Definition directory_ready (path dtype : string) (w : world) : Prop :=
  (path_exists (fs w) path = false ∧ leaf path ≠ "." ∧
   ∃ w1, os_makedirs path w = (w1, inr ())) ∨
  (∃ files, os_listdir path w = (w, inr files) ∧
            Forall (λ f, str_endswith f dtype = false) files).

(** ** Vocabulary of the further properties *)

(** The computation leaves the directory tree as it found it. *)
Definition keeps_fs {A} (m : M A) : Prop := ∀ w, fs (m w).1 = fs w.

(** Two worlds with the same tree and the same output; the call logs may
    differ. *)
Definition same_files (w1 w2 : world) : Prop :=
  fs w1 = fs w2 ∧ stdout w1 = stdout w2.

(** Two computations that have the same outcome and do the same to the tree
    and to the output. *)
Definition agree {A} (m1 m2 : M A) : Prop :=
  ∀ w1 w2, same_files w1 w2 →
    same_files (m1 w1).1 (m2 w2).1 ∧ (m1 w1).2 = (m2 w2).2.

(** [open(path, "w")] succeeds: the path names a regular file, or a new name
    in a directory. *)
Definition opens (path : string) (w : world) : Prop :=
  ∃ loc, (open_w path w).2 = inr loc.

(** The content of the regular file a path names. *)
Definition file_content (w : world) (path : string) : option string :=
  match locate (fs w) path with
  | inr (_, Some (File data)) => Some data
  | _ => None
  end.

(** The path [write_json] and [write_json_async] open. *)
Definition json_path (path : string) : string :=
  if str_endswith path ".json" then path else path +:+ ".json".

(** The task [read_dir_contents_async] appends for a matching file. *)
Definition read_task `{Libs} (path dtype file : string) : M pyval :=
  if bool_decide (dtype = "json") then read_json_async (os_path_join path file)
  else s ← read_file_async (os_path_join path file); mret (PStr s).

(** The key [read_dir_contents_async] records for a matching file. *)
Definition async_key (dtype file : string) : string :=
  if bool_decide (dtype ≠ "all") then str_replace ("." +:+ dtype) "" file else file.

(** The names of a listing the readers keep. *)
Definition matching (dtype : string) (files : list string) : list string :=
  filter (λ f, str_endswith f dtype = true) files.

(** Every entry of [root] is still there in [root'], a directory as a
    directory and a regular file as a regular file. *)
Definition extends (root root' : node) : Prop :=
  ∀ loc n, get root loc = Some n →
           ∃ n', get root' loc = Some n' ∧ is_dir n' = is_dir n.

(** The computation removes nothing and turns no file into a directory or
    a directory into a file. *)
Definition keeps_entries {A} (m : M A) : Prop := ∀ w, extends (fs w) (fs (m w).1).

(** The computation leaves the tree, or stores one regular file at the
    location [open(path, "w")] gives. *)
Definition writes_at_most {A} (path : string) (m : M A) : Prop :=
  ∀ w, fs (m w).1 = fs w ∨
       ∃ loc text, (open_w path w).2 = inr loc ∧ fs (m w).1 = put (fs w) loc (File text).

(** The computation stores one regular file at the location
    [open(path, "w")] gives, and leaves the tree when [open] fails. *)
Definition writes_file {A} (path : string) (m : M A) : Prop :=
  ∀ w, match (open_w path w).2 with
       | inr loc => ∃ text, fs (m w).1 = put (fs w) loc (File text)
       | inl _ => fs (m w).1 = fs w
       end.





(** A second stand-in for the json module, for values that are not
    serialisable: [None], the booleans and flat lists of them as
    [json.dump] streams them with an indent, the items on lines of their
    own.  The encoder stops at the first item it cannot serialise, a frame
    for one, and what it has produced up to there, the separator before the
    item included, has gone to the file. *)
Definition json_atom (v : pyval) : option string :=
  match v with
  | PNone => Some "null"
  | PBool true => Some "true"
  | PBool false => Some "false"
  | _ => None
  end.

Fixpoint spaces (n : nat) : string :=
  match n with O => "" | S n' => String " " (spaces n') end.

Fixpoint json_items (nl buf : string) (l : list pyval) : string * bool :=
  match l with
  | [] => ("", true)
  | v :: l' =>
      match json_atom v with
      | Some text =>
          let '(rest, complete) := json_items nl ("," +:+ nl) l' in
          (buf +:+ text +:+ rest, complete)
      | None => (buf, false)
      end
  end.

Definition streaming_libs : Libs := {|
  json_encode indent v :=
    match v with
    | PList [] => ("[]", true)
    | PList l =>
        let nl := String LF (spaces indent) in
        let '(body, complete) := json_items nl ("[" +:+ nl) l in
        if complete : bool then (body +:+ String LF "]", true) else (body, false)
    | _ =>
        match json_atom v with
        | Some text => (text, true)
        | None => ("", false)
        end
    end;
  json_loads := @json_loads sample_libs;
  pd_decode := @pd_decode sample_libs;
  pd_encode := @pd_encode sample_libs;
|}.

(** * Lemmas *)

(** ** Strings *)

Lemma str_app_assoc s t u : (s +:+ t) +:+ u = s +:+ t +:+ u.
Proof. induction s; simpl; [done|]. by rewrite IHs. Qed.

Lemma str_app_empty_r s : s +:+ "" = s.
Proof. induction s; simpl; [done|]. by rewrite IHs. Qed.

Lemma str_length_app s t :
  String.length (s +:+ t) = String.length s + String.length t.
Proof. induction s; simpl; [done|]. by rewrite IHs. Qed.

Lemma str_startswith_refl p : str_startswith p p = true.
Proof. induction p; simpl; [done|]. by rewrite bool_decide_eq_true_2. Qed.

Lemma str_drop_app s t : str_drop (String.length s) (s +:+ t) = t.
Proof. induction s; simpl; [by destruct t|done]. Qed.

Lemma str_endswith_app s p : str_endswith (s +:+ p) p = true.
Proof.
  unfold str_endswith. rewrite str_length_app.
  rewrite bool_decide_eq_true_2 by lia. simpl.
  replace (String.length s + String.length p - String.length p)
    with (String.length s) by lia.
  rewrite str_drop_app. by rewrite bool_decide_eq_true_2.
Qed.

Lemma str_has_app c s t : str_has c (s +:+ t) = str_has c s || str_has c t.
Proof. induction s; simpl; [done|]. rewrite IHs. by rewrite orb_assoc. Qed.

Lemma str_contains_startswith p s :
  str_contains p s = false → str_startswith s p = false.
Proof. destruct s; simpl; by intros [? _]%orb_false_iff. Qed.

(** A prefix [p] of [k +:+ q] lies within [k] or runs over into [q]. *)
Lemma str_startswith_app_inv p k q :
  str_startswith (k +:+ q) p = true →
  str_startswith k p = true ∨ ∃ p2, p = k +:+ p2 ∧ str_startswith q p2 = true.
Proof.
  revert k. induction p as [|b p IH]; intros k; simpl; [by left|].
  destruct k as [|a k]; simpl.
  - intros H. right. by exists (String b p).
  - intros [Hab H]%andb_true_iff. rewrite Hab. simpl.
    apply bool_decide_eq_true in Hab as ->.
    destruct (IH _ H) as [?|(p2 & -> & ?)]; [by left|right]. by exists p2.
Qed.

(** A suffix ".d" with no dot in [d] cannot overlap itself. *)
Lemma str_startswith_overlap d k :
  str_has dot d = false →
  str_startswith (k +:+ String dot d) (String dot d) = true →
  k = "" ∨ str_startswith k (String dot d) = true.
Proof.
  intros Hd H. apply str_startswith_app_inv in H as [?|(p2 & Hp & Hp2)]; [by right|].
  destruct k as [|a k]; [by left|right].
  simpl in Hp. injection Hp as <- ->.
  destruct p2 as [|b p2].
  - rewrite str_app_empty_r. apply str_startswith_refl.
  - simpl in Hp2. apply andb_true_iff in Hp2 as [Hb _].
    apply bool_decide_eq_true in Hb. rewrite str_has_app in Hd. simpl in Hd.
    rewrite Hb in Hd. rewrite bool_decide_eq_true_2 in Hd by done.
    by rewrite orb_true_r in Hd.
Qed.

Lemma replace_from_skip old new s t :
  replace_from old new (String.length s) (s +:+ t) = replace_from old new 0 t.
Proof. induction s; simpl; [by destruct t|done]. Qed.

Lemma replace_from_clean d k :
  str_has dot d = false →
  str_contains (String dot d) k = false →
  replace_from (String dot d) "" 0 (k +:+ String dot d) = k.
Proof.
  intros Hd. induction k as [|a k IH]; intros Hk.
  - simpl. rewrite str_startswith_refl. simpl. rewrite Nat.sub_0_r.

    pose proof (replace_from_skip (String dot d) "" d "") as H.
    rewrite str_app_empty_r in H. by rewrite H.
  - assert (str_startswith (String a k +:+ String dot d) (String dot d) = false) as Hno.
    { destruct (str_startswith _ _) eqn:E; [|done].
      apply str_startswith_overlap in E as [?|E]; [done| |done].
      by rewrite (str_contains_startswith _ _ Hk) in E. }
    change (String a k +:+ String dot d) with (String a (k +:+ String dot d)) in *.
    cbn [replace_from]. rewrite Hno. f_equal. apply IH.
    simpl in Hk. by apply orb_false_iff in Hk as [_ ?].
Qed.

(** The identifier the readers compute for a file the writers named. *)
Lemma str_replace_suffix dtype k :
  str_has dot dtype = false →
  str_contains ("." +:+ dtype) k = false →
  str_replace ("." +:+ dtype) "" (k +:+ "." +:+ dtype) = k.
Proof. intros. by apply replace_from_clean. Qed.

Lemma universal_newlines_id s : str_has CR s = false → universal_newlines s = s.
Proof.
  induction s as [|a s IH]; [done|]. simpl.
  intros [Ha Hs]%orb_false_iff. rewrite Ha. by rewrite IH.
Qed.

(** *** Components *)

Lemma split_slash_nonempty s : split_slash s ≠ [].
Proof.
  induction s as [|a s IH]; simpl; [done|].
  case_bool_decide; [done|]. by destruct (split_slash s).
Qed.

Lemma split_slash_name s : str_has slash s = false → split_slash s = [s].
Proof.
  induction s as [|a s IH]; [done|]. simpl.
  intros [Ha Hs]%orb_false_iff. rewrite Ha. by rewrite IH.
Qed.

Lemma split_slash_cons a s :
  split_slash (String a s) =
    if bool_decide (a = slash) then "" :: split_slash s
    else match split_slash s with
         | [] => [String a ""]
         | c :: cs => String a c :: cs
         end.
Proof. done. Qed.

Lemma split_slash_app_slash a b :
  split_slash (a +:+ "/" +:+ b) = split_slash a ++ split_slash b.
Proof.
  induction a as [|x a IH].
  - simpl. done.
  - change (String x a +:+ "/" +:+ b) with (String x (a +:+ "/" +:+ b)).
    rewrite !split_slash_cons, IH. case_bool_decide; [done|].
    pose proof (split_slash_nonempty a). by destruct (split_slash a).
Qed.

Lemma str_drop_inv (n : nat) s p :
  (n ≤ String.length s)%nat → str_drop n s = p → ∃ t, s = t +:+ p.
Proof.
  revert s. induction n as [|n IH]; intros s Hn Hp.
  - exists "". by destruct s.
  - destruct s as [|a s]; simpl in *; [lia|].
    destruct (IH s) as [t ->]; [lia|done|]. by exists (String a t).
Qed.

Lemma str_endswith_inv s p : str_endswith s p = true → ∃ t, s = t +:+ p.
Proof.
  unfold str_endswith. intros [_ H%bool_decide_eq_true]%andb_true_iff.
  eapply str_drop_inv; [|done]. lia.
Qed.

(** A path that ends with a slash: the last component is empty. *)
Lemma split_slash_app_trailing a b :
  str_endswith a "/" = true →
  ∃ cs, split_slash a = cs ++ [""] ∧ split_slash (a +:+ b) = cs ++ split_slash b.
Proof.
  intros [t ->]%str_endswith_inv. exists (split_slash t). split.
  - rewrite <-(str_app_empty_r (t +:+ "/")), str_app_assoc.
    by rewrite split_slash_app_slash.
  - by rewrite str_app_assoc, split_slash_app_slash.
Qed.

(** ** The directory tree *)

Lemma assoc_put_entry_eq c new es : assoc c (put_entry c new es) = Some new.
Proof.
  induction es as [|[c' n] es IH]; simpl.
  - by rewrite decide_True.
  - destruct (decide (c = c')) as [->|]; simpl.
    + by rewrite decide_True.
    + by rewrite decide_False.
Qed.

Lemma assoc_put_entry_ne c c' new es :
  c ≠ c' → assoc c' (put_entry c new es) = assoc c' es.
Proof.
  intros Hne. induction es as [|[c'' n] es IH]; simpl.
  - by rewrite decide_False.
  - destruct (decide (c = c'')) as [->|]; simpl.
    + by rewrite !decide_False.
    + destruct (decide (c' = c'')); [done|]. apply IH.
Qed.

Lemma put_entry_put_entry c a b es :
  put_entry c b (put_entry c a es) = put_entry c b es.
Proof.
  induction es as [|[c' n] es IH]; simpl.
  - by rewrite decide_True.
  - destruct (decide (c = c')) as [->|]; simpl.
    + by rewrite decide_True.
    + rewrite decide_False by done. by rewrite IH.
Qed.

Lemma put_entry_fresh c new es :
  assoc c es = None → put_entry c new es = es ++ [(c, new)].
Proof.
  induction es as [|[c' n] es IH]; simpl; [done|].
  destruct (decide (c = c')); [done|]. intros ?. by rewrite IH.
Qed.

Lemma assoc_app c es1 es2 :
  assoc c (es1 ++ es2) =
    match assoc c es1 with Some n => Some n | None => assoc c es2 end.
Proof.
  induction es1 as [|[c' n] es1 IH]; simpl; [done|]. by destruct (decide (c = c')).
Qed.

Lemma assoc_None c es : assoc c es = None ↔ c ∉ es.*1.
Proof.
  induction es as [|[c' n] es IH]; simpl.
  - split; [|done]. intros _. apply not_elem_of_nil.
  - rewrite not_elem_of_cons. destruct (decide (c = c')) as [->|Hne].
    + split; [done|]. by intros [? _].
    + rewrite IH. split; [done|]. by intros [_ ?].
Qed.

Lemma get_app root loc1 loc2 :
  get root (loc1 ++ loc2) =
    match get root loc1 with Some n => get n loc2 | None => None end.
Proof.
  revert root. induction loc1 as [|c loc1 IH]; intros root; simpl; [done|].
  destruct root as [|es]; [done|]. destruct (assoc c es); [apply IH|done].
Qed.

Lemma get_snoc root loc c es :
  get root loc = Some (Dir es) → get root (loc ++ [c]) = assoc c es.
Proof. intros H. rewrite get_app, H. simpl. by destruct (assoc c es). Qed.

Lemma get_removelast root loc n :
  get root loc = Some n → is_Some (get root (removelast loc)).
Proof.
  destruct (decide (loc = [])) as [->|Hne]; [by eauto|].
  rewrite (app_removelast_last "" Hne) at 1.
  rewrite get_app. destruct (get root (removelast loc)); [by eauto|done].
Qed.

(** [put] at a location whose parent is a directory. *)
Lemma get_put_parent root ploc c new es :
  get root ploc = Some (Dir es) →
  get (put root (ploc ++ [c]) new) ploc = Some (Dir (put_entry c new es)).
Proof.
  revert root. induction ploc as [|d ploc IH]; intros root; simpl.
  - by intros [= ->].
  - destruct root as [|es0]; [done|].
    destruct (assoc d es0) as [n'|] eqn:Hd; [|done]. intros Hg.
    specialize (IH _ Hg).
    destruct (ploc ++ [c]) eqn:E; [by destruct ploc|].
    simpl. by rewrite assoc_put_entry_eq.
Qed.

(** What was there stays there, and a directory stays a directory, when
    the node stored replaces nothing or a regular file. *)
Lemma get_put_mono root q new loc n :
  replaceable root q →
  get root loc = Some n →
  ∃ n', get (put root q new) loc = Some n' ∧ (is_dir n = true → is_dir n' = true).
Proof.
  unfold replaceable.
  revert root loc n. induction q as [|c q IH]; intros root loc n Hq Hg.
  - simpl in *. destruct root as [d|es]; [|done].
    destruct loc; simpl in Hg; [|done]. injection Hg as <-. by eexists.
  - simpl. destruct root as [d|es]; [by eauto|].
    destruct loc as [|c' loc]; simpl in Hg.
    { injection Hg as <-. destruct q; [by eauto|].
      destruct (assoc c es); by eauto. }
    destruct (assoc c' es) as [n1|] eqn:Hc'; [|done].
    simpl in Hq.
    destruct q as [|c2 q].
    + simpl. destruct (decide (c = c')) as [->|Hne].
      * rewrite Hc' in Hq. simpl in Hq. destruct n1 as [d|]; [|done].
        rewrite assoc_put_entry_eq. destruct loc; simpl in Hg; [|done].
        injection Hg as <-. by eexists.
      * rewrite assoc_put_entry_ne by done. rewrite Hc'. eauto.
    + destruct (assoc c es) as [n2|] eqn:Hc.
      * simpl. destruct (decide (c = c')) as [->|Hne].
        -- rewrite assoc_put_entry_eq. rewrite Hc' in Hc. injection Hc as <-.
           by apply IH.
        -- rewrite assoc_put_entry_ne by done. rewrite Hc'. eauto.
      * simpl. rewrite Hc'. eauto.
Qed.

(** ** Path resolution *)

Lemma locate_from_snoc root f cs c :
  locate_from root f (cs ++ [c]) = step root f (locate_from root f cs) c.
Proof. unfold locate_from. by rewrite foldl_snoc. Qed.

Lemma foldl_step_error root f e cs : foldl (step root f) (inl e) cs = inl e.
Proof. by induction cs. Qed.

(** Only from a directory does a step go on. *)
Lemma step_inr_inv root f st c st' :
  step root f st c = inr st' → ∃ loc es, st = inr (loc, Some (Dir es)).
Proof. destruct st as [e|[loc [[d|es]|]]]; simpl; [done..|by eauto|done]. Qed.

Lemma foldl_step_inr_inv root f st cs st' :
  cs ≠ [] → foldl (step root f) st cs = inr st' →
  ∃ loc es, st = inr (loc, Some (Dir es)).
Proof.
  destruct cs as [|c cs]; [done|]. intros _. simpl.
  destruct (step root f st c) as [e|st1] eqn:E.
  - by rewrite foldl_step_error.
  - intros _. by eapply step_inr_inv.
Qed.

(** The state carries the node that is at the location reached. *)
Lemma locate_from_get root f cs loc o :
  locate_from root f cs = inr (loc, o) → get root loc = o.
Proof.
  revert loc o. induction cs as [|c cs IH] using rev_ind; intros loc o.
  - by intros [= <- <-].
  - rewrite locate_from_snoc. intros Hs.
    destruct (step_inr_inv _ _ _ _ _ Hs) as (loc0 & es0 & E). rewrite E in Hs.
    specialize (IH _ _ E). simpl in Hs.
    destruct (bool_decide (c = "") || bool_decide (c = ".")).
    { by injection Hs as <- <-. }
    destruct (bool_decide (c = "..")); injection Hs as <- <-; [done|].
    by apply get_snoc.
Qed.

(** The file name only labels the error. *)
Lemma locate_from_filename root f f' cs st :
  locate_from root f cs = inr st → locate_from root f' cs = inr st.
Proof.
  revert st. induction cs as [|c cs IH] using rev_ind; intros st; [done|].
  rewrite !locate_from_snoc. intros Hs.
  destruct (step_inr_inv _ _ _ _ _ Hs) as (loc0 & es0 & E). rewrite E in Hs.
  by rewrite (IH _ E).
Qed.

(** A path that resolved to a missing name: its parent is a directory. *)
Lemma locate_from_missing root f cs loc :
  locate_from root f cs = inr (loc, None) →
  ∃ ploc c es, loc = ploc ++ [c] ∧ get root ploc = Some (Dir es).
Proof.
  destruct cs as [|c cs _] using rev_ind; [done|].
  rewrite locate_from_snoc. intros Hs.
  destruct (step_inr_inv _ _ _ _ _ Hs) as (loc0 & es0 & E). rewrite E in Hs.
  apply locate_from_get in E. simpl in Hs.
  destruct (bool_decide (c = "") || bool_decide (c = ".")); [done|].
  destruct (bool_decide (c = "..")); injection Hs as <- Hs.
  - destruct (get_removelast _ _ _ E) as [n Hn]. by rewrite Hn in Hs.
  - by eauto.
Qed.

(** Storing a node where there was none, or a regular file, leaves every
    path that resolved resolving to the same location. *)
Lemma locate_from_put root q new f cs loc o :
  replaceable root q →
  locate_from root f cs = inr (loc, o) →
  locate_from (put root q new) f cs = inr (loc, get (put root q new) loc).
Proof.
  intros Hq. revert loc o.
  induction cs as [|c cs IH] using rev_ind; intros loc o.
  - by intros [= <- <-].
  - rewrite !locate_from_snoc. intros Hs.
    destruct (step_inr_inv _ _ _ _ _ Hs) as (loc0 & es0 & E). rewrite E in Hs.
    rewrite (IH _ _ E). apply locate_from_get in E.
    destruct (get_put_mono _ _ new _ _ Hq E) as (n' & Hn' & Hdir).
    rewrite Hn'. destruct n' as [d|es0']; [by specialize (Hdir eq_refl)|].
    simpl in *.
    destruct (bool_decide (c = "") || bool_decide (c = ".")).
    { injection Hs as <- <-. by rewrite Hn'. }
    destruct (bool_decide (c = "..")); injection Hs as <- <-; [done|].
    f_equal. f_equal. symmetry. by apply get_snoc.
Qed.

Lemma get_put_same root ploc c new es :
  get root ploc = Some (Dir es) → get (put root (ploc ++ [c]) new) (ploc ++ [c]) = Some new.
Proof.
  intros H. erewrite get_snoc; [|by apply get_put_parent].
  apply assoc_put_entry_eq.
Qed.

(** A prefix of a path that resolves is a directory. *)
Lemma locate_from_prefix root f cs1 cs2 st :
  cs2 ≠ [] → locate_from root f (cs1 ++ cs2) = inr st →
  ∃ loc es, locate_from root f cs1 = inr (loc, Some (Dir es)).
Proof.
  unfold locate_from. rewrite foldl_app. apply foldl_step_inr_inv.
Qed.

Lemma step_name root f loc es name :
  plain_name name →
  step root f (inr (loc, Some (Dir es))) name = inr (loc ++ [name], assoc name es).
Proof.
  intros (_ & H1 & H2 & H3). simpl.
  by rewrite !bool_decide_eq_false_2.
Qed.

Lemma os_path_join_name path name :
  str_has slash name = false →
  os_path_join path name =
    if bool_decide (path = "") || str_endswith path "/" then path +:+ name
    else path +:+ "/" +:+ name.
Proof.
  intros H. unfold os_path_join.
  destruct name as [|a name]; [done|]. simpl in *. unfold slash in H.
  apply orb_false_iff in H as [-> _]. done.
Qed.

Lemma str_app_eq_empty s t : s +:+ t = "" → s = "" ∧ t = "".
Proof. destruct s; [done|]. by simpl. Qed.

(** The file [name] of the directory at [path]. *)
Lemma locate_join root path name ploc es :
  locate root path = inr (ploc, Some (Dir es)) →
  plain_name name →
  locate root (os_path_join path name) = inr (ploc ++ [name], assoc name es).
Proof.
  intros Hp Hname. pose proof Hname as (Hs & Hne & _).
  unfold locate in *.
  destruct (decide (path = "")) as [->|Hpath];
    [by rewrite bool_decide_eq_true_2 in Hp|].
  rewrite bool_decide_eq_false_2 in Hp by done.
  rewrite os_path_join_name by done.
  rewrite (bool_decide_eq_false_2 (path = "")) by done. cbn [orb].
  destruct (str_endswith path "/") eqn:Hend.
  - rewrite bool_decide_eq_false_2.
    2:{ intros [? ?]%str_app_eq_empty. done. }
    destruct (split_slash_app_trailing path name Hend) as (cs & E1 & E2).
    rewrite E2, (split_slash_name _ Hs). rewrite E1 in Hp.
    rewrite locate_from_snoc in Hp.
    destruct (step_inr_inv _ _ _ _ _ Hp) as (loc0 & es0 & E).
    rewrite E in Hp. simpl in Hp. injection Hp as -> ->.
    rewrite locate_from_snoc. 
    rewrite (locate_from_filename _ _ (path +:+ name) _ _ E).
    by apply step_name.
  - rewrite bool_decide_eq_false_2.
    2:{ intros [? ?]%str_app_eq_empty. done. }
    rewrite split_slash_app_slash, (split_slash_name _ Hs).
    rewrite locate_from_snoc.
    rewrite (locate_from_filename _ _ (path +:+ "/" +:+ name) _ _ Hp).
    by apply step_name.
Qed.

(** ** The per-file helpers *)

Ltac run :=
  unfold mbind, mret, M_bind, M_ret, bind, ret, raise, try_except, enter,
    print, lift_os in *;
  cbn [fs stdout calls fst snd] in *.

Lemma read_text_eq path w :
  read_text path w =
    (w, match (read_bytes path w).2 with
        | inr data => inr (universal_newlines data)
        | inl e => inl e
        end).
Proof.
  unfold read_text, read_bytes. run.
  by destruct (locate (fs w) path) as [e|[loc [[data|es]|]]].
Qed.

(** ** Returning without an exception *)

Lemma never_raises_ret {A} (a : A) : never_raises (mret a).
Proof. intros w. by exists w, a. Qed.

Lemma never_raises_bind {A B} (m : M A) (k : A → M B) :
  never_raises m → (∀ a, never_raises (k a)) → never_raises (m ≫= k).
Proof.
  intros Hm Hk w. destruct (Hm w) as (w1 & a & E). run. rewrite E. apply Hk.
Qed.

Lemma never_raises_print line : never_raises (print line).
Proof. intros w. by eexists _, _. Qed.

Lemma never_raises_enter c : never_raises (enter c).
Proof. intros w. by eexists _, _. Qed.

Lemma never_raises_try_except {A} (m : M A) h :
  (∀ e, never_raises (h e)) → never_raises (try_except m h).
Proof.
  intros Hh w. unfold try_except. destruct (m w) as [w1 [e|a]]; [apply Hh|by eauto].
Qed.

Lemma never_raises_for_each {A B} (xs : list B) (body : A → B → M A) acc :
  (∀ a x, never_raises (body a x)) → never_raises (for_each xs body acc).
Proof.
  intros Hb. revert acc. induction xs as [|x xs IH]; intros acc; simpl.
  - apply never_raises_ret.
  - apply never_raises_bind; [apply Hb|]. intros a. apply IH.
Qed.

Lemma never_raises_gather {A} (tasks : list (M A)) :
  Forall never_raises tasks → never_raises (gather tasks).
Proof.
  intros Ht w. unfold gather.
  assert (∃ w' l, run_all tasks w = (w', inr <$> l)) as (w' & l & ->).
  { revert w. induction Ht as [|t ts Ht _ IH]; intros w; simpl.
    - by exists w, [].
    - destruct (Ht w) as (w1 & a & ->). destruct (IH w1) as (w2 & l & ->).
      by exists w2, (a :: l). }
  exists w', l. f_equal. induction l as [|a l IH]; [done|].
  rewrite fmap_cons. simpl. by rewrite IH.
Qed.

Ltac never_raises_step :=
  lazymatch goal with
  | |- never_raises (mret _) => apply never_raises_ret
  | |- never_raises (print _) => apply never_raises_print
  | |- never_raises (enter _) => apply never_raises_enter
  | |- never_raises (try_except _ _) => apply never_raises_try_except; intros ?
  | |- never_raises (mbind _ _) => apply never_raises_bind; [|intros ?]
  end.



Lemma never_raises_write_file path data : never_raises (write_file path data).
Proof. unfold write_file. repeat never_raises_step. Qed.

Lemma never_raises_write_file_async path data : never_raises (write_file_async path data).
Proof. unfold write_file_async. repeat never_raises_step. Qed.

Lemma never_raises_write_json `{Libs} path data indent :
  never_raises (write_json path data indent).
Proof. unfold write_json. repeat never_raises_step. Qed.

Lemma never_raises_write_json_async `{Libs} path data indent :
  never_raises (write_json_async path data indent).
Proof. unfold write_json_async. repeat never_raises_step. Qed.


Lemma never_raises_write_df `{Libs} path data dtype : never_raises (write_df path data dtype).
Proof. unfold write_df. repeat never_raises_step. Qed.

(** ** What the handlers do with a failure *)



Lemma swallows_write_file path data :
  swallows (Call_write_file path) (write_file_try path data) (write_file path data) ().
Proof.
  intros w. unfold write_file, entered. run.
  destruct (write_file_try path data _) as [w1 [e|[]]]; [by eexists|done].
Qed.

Lemma swallows_write_file_async path data :
  swallows (Call_write_file_async path) (write_file_try path data)
    (write_file_async path data) ().
Proof.
  intros w. unfold write_file_async, entered. run.
  destruct (write_file_try path data _) as [w1 [e|[]]]; [by eexists|done].
Qed.

Lemma swallows_write_json `{Libs} path data indent :
  swallows (Call_write_json path)
    (write_json_try (if str_endswith path ".json" then path else path +:+ ".json")
       data indent)
    (write_json path data indent) ().
Proof.
  intros w. unfold write_json, entered. run.
  destruct (write_json_try _ data indent _) as [w1 [e|[]]]; [by eexists|done].
Qed.

Lemma swallows_write_json_async `{Libs} path data indent :
  swallows (Call_write_json_async path)
    (write_json_async_try (if str_endswith path ".json" then path else path +:+ ".json")
       data indent)
    (write_json_async path data indent) ().
Proof.
  intros w. unfold write_json_async, entered. run.
  destruct (write_json_async_try _ data indent _) as [w1 [e|[]]]; [by eexists|done].
Qed.


Lemma swallows_write_df `{Libs} path data dtype :
  swallows (Call_write_df path dtype) (write_df_try path data dtype)
    (write_df path data dtype) ().
Proof.
  intros w. unfold write_df, entered. run.
  destruct (write_df_try path data dtype _) as [w1 [e|[]]]; [by eexists|done].
Qed.

(** The JSON readers: the two failures that have a handler. *)
Lemma read_json_handled `{Libs} path w :
  match read_json_try path (entered w (Call_read_json path)) with
  | (w1, inr v) => read_json path w = (w1, inr v)
  | (w1, inl e) =>
      if json_handled e
      then ∃ line, read_json path w = (printed w1 line, inr (PDict []))
      else read_json path w = (w1, inl e)
  end.
Proof.
  unfold read_json, entered. run.
  destruct (read_json_try path _) as [w1 [e|v]]; [|done].
  destruct e; simpl; try done; by eexists.
Qed.

Lemma read_json_async_handled `{Libs} path w :
  match read_json_try path (entered w (Call_read_json_async path)) with
  | (w1, inr v) => read_json_async path w = (w1, inr v)
  | (w1, inl e) =>
      if json_handled e
      then ∃ line, read_json_async path w = (printed w1 line, inr (PDict []))
      else read_json_async path w = (w1, inl e)
  end.
Proof.
  unfold read_json_async, entered. run.
  destruct (read_json_try path _) as [w1 [e|v]]; [|done].
  destruct e; simpl; try done; by eexists.
Qed.

(** ** The directory helpers *)



Lemma plan_entry_tasks `{Libs} path dtype (P : M pyval → Prop) files acc :
  (∀ file, P (if bool_decide (dtype = "json")
              then read_json_async (os_path_join path file)
              else s ← read_file_async (os_path_join path file); mret (PStr s))) →
  Forall P acc.1 → Forall P (foldl (plan_entry path dtype) acc files).1.
Proof.
  intros HP. revert acc. induction files as [|file files IH]; intros [tasks idents] Hacc;
    [done|].
  simpl. apply IH. destruct (str_endswith file dtype); [|done].
  specialize (HP file). destruct (bool_decide (dtype = "json")); simpl in *;
    apply Forall_app; split; by repeat constructor.
Qed.


Lemma never_raises_write_entry `{Libs} path dtype u item :
  never_raises (write_entry path dtype u item).
Proof.
  unfold write_entry. destruct (bool_decide (dtype = "json")).
  - apply never_raises_write_json.
  - destruct (is_frame_dtype dtype);
      [apply never_raises_write_df|apply never_raises_write_file].
Qed.

Lemma never_raises_write_task `{Libs} path dtype item :
  never_raises (write_task path dtype item).
Proof.
  unfold write_task. destruct (bool_decide (dtype = "json")).
  - apply never_raises_write_json_async.
  - apply never_raises_write_file_async.
Qed.

(** The directory writers return unless [os.makedirs] raises. *)
Lemma write_contents_to_dir_outcome `{Libs} path contents dtype w :
  if path_exists (fs w) path
  then ∃ w', write_contents_to_dir path contents dtype w = (w', inr ())
  else match os_makedirs path w with
       | (w1, inr _) => ∃ w', write_contents_to_dir path contents dtype w = (w', inr ())
       | (w1, inl e) => write_contents_to_dir path contents dtype w = (w1, inl e)
       end.
Proof.
  unfold write_contents_to_dir, os_path_exists. run.
  assert (∀ w0, ∃ w', for_each contents (write_entry path dtype) () w0 = (w', inr ()))
    as Hloop.
  { intros w0. destruct (never_raises_for_each contents (write_entry path dtype) ()
      (never_raises_write_entry path dtype) w0) as (w' & [] & ->). by eauto. }
  destruct (path_exists (fs w) path); [apply Hloop|].
  destruct (os_makedirs path w) as [w1 [e|[]]]; [done|apply Hloop].
Qed.

Lemma write_contents_to_dir_async_outcome `{Libs} path contents dtype w :
  if path_exists (fs w) path
  then ∃ w', write_contents_to_dir_async path contents dtype w = (w', inr ())
  else match os_makedirs path w with
       | (w1, inr _) =>
           ∃ w', write_contents_to_dir_async path contents dtype w = (w', inr ())
       | (w1, inl e) => write_contents_to_dir_async path contents dtype w = (w1, inl e)
       end.
Proof.
  unfold write_contents_to_dir_async, os_path_exists. run.
  assert (∀ w0, ∃ w', (let (w', r) := gather (write_task path dtype <$> contents) w0 in
                       match r with
                       | inl e => (w', inl e)
                       | inr _ => (w', inr ())
                       end) = (w', inr ())) as Hloop.
  { intros w0.
    destruct (never_raises_gather (write_task path dtype <$> contents)) with (w := w0)
      as (w' & l & ->); [|by eauto].
    apply Forall_fmap, Forall_forall. intros item _. apply never_raises_write_task. }
  destruct (path_exists (fs w) path); [apply Hloop|].
  destruct (os_makedirs path w) as [w1 [e|[]]]; [done|apply Hloop].
Qed.

(** ** The call log *)

Lemma logs_only_ret {A} P (a : A) : logs_only P (mret a).
Proof. intros w. exists []. by rewrite app_nil_r. Qed.

Lemma logs_only_raise {A} P e : logs_only P (@raise A e).
Proof. intros w. exists []. by rewrite app_nil_r. Qed.

Lemma logs_only_print P line : logs_only P (print line).
Proof. intros w. exists []. by rewrite app_nil_r. Qed.

Lemma logs_only_lift_os {A} P (f : node → exn + A) : logs_only P (lift_os f).
Proof. intros w. exists []. by rewrite app_nil_r. Qed.

Lemma logs_only_enter (P : call → Prop) c : P c → logs_only P (enter c).
Proof. intros Hc w. exists [c]. split; [done|]. by constructor. Qed.

Lemma logs_only_bind {A B} P (m : M A) (k : A → M B) :
  logs_only P m → (∀ a, logs_only P (k a)) → logs_only P (m ≫= k).
Proof.
  intros Hm Hk w. destruct (Hm w) as (new1 & E1 & H1). run.
  destruct (m w) as [w1 [e|a]]; simpl in *; [by eauto|].
  destruct (Hk a w1) as (new2 & E2 & H2). exists (new1 ++ new2).
  rewrite E2, E1, (assoc_L (++)). split; [done|]. by apply Forall_app.
Qed.

Lemma logs_only_try_except {A} P (m : M A) h :
  logs_only P m → (∀ e, logs_only P (h e)) → logs_only P (try_except m h).
Proof.
  intros Hm Hh w. destruct (Hm w) as (new1 & E1 & H1). unfold try_except.
  destruct (m w) as [w1 [e|a]]; simpl in *; [|by eauto].
  destruct (Hh e w1) as (new2 & E2 & H2). exists (new1 ++ new2).
  rewrite E2, E1, (assoc_L (++)). split; [done|]. by apply Forall_app.
Qed.

Lemma logs_only_open_w P path : logs_only P (open_w path).
Proof.
  intros w. exists []. rewrite app_nil_r. unfold open_w.
  by destruct (locate (fs w) path) as [e|[loc [[d|es]|]]].
Qed.

Lemma logs_only_append_at P loc text : logs_only P (append_at loc text).
Proof.
  intros w. exists []. rewrite app_nil_r. unfold append_at.
  by destruct (get (fs w) loc) as [[d|es]|].
Qed.

Lemma logs_only_mkdir_at P f cs : logs_only P (mkdir_at f cs).
Proof.
  intros w. exists []. rewrite app_nil_r. unfold mkdir_at.
  by destruct (locate_from (fs w) f cs) as [e|[loc [[d|es]|]]].
Qed.

Ltac logs_only_step :=
  lazymatch goal with
  | |- logs_only _ (mret _) => apply logs_only_ret
  | |- logs_only _ (raise _) => apply logs_only_raise
  | |- logs_only _ (print _) => apply logs_only_print
  | |- logs_only _ (lift_os _) => apply logs_only_lift_os
  | |- logs_only _ (open_w _) => apply logs_only_open_w
  | |- logs_only _ (append_at _ _) => apply logs_only_append_at
  | |- logs_only _ (mkdir_at _ _) => apply logs_only_mkdir_at
  | |- logs_only _ (enter _) => apply logs_only_enter; by eauto
  | |- logs_only _ (try_except _ _) => apply logs_only_try_except; [|intros ?]
  | |- logs_only _ (mbind _ _) => apply logs_only_bind; [|intros ?]
  end.

Lemma logs_only_makedirs_rev P f rcs : logs_only P (makedirs_rev f rcs).
Proof.
  induction rcs as [|tail rhead IH]; simpl; [logs_only_step|].
  destruct rhead as [|c rhead]; [logs_only_step|].
  destruct (bool_decide (tail = "")); [done|].
  apply logs_only_bind; [apply logs_only_lift_os|]. intros [].
  - logs_only_step.
  - apply logs_only_bind.
    + apply logs_only_try_except; [done|]. intros e. destruct e; logs_only_step.
    + intros _. destruct (bool_decide (tail = ".")); logs_only_step.
Qed.

Lemma logs_only_os_makedirs P name : logs_only P (os_makedirs name).
Proof.
  unfold os_makedirs. destruct (bool_decide (name = "")); [logs_only_step|].
  apply logs_only_makedirs_rev.
Qed.

Lemma logs_only_gather {A} P (tasks : list (M A)) :
  Forall (logs_only P) tasks → logs_only P (gather tasks).
Proof.
  intros Ht w. unfold gather.
  assert (∃ new, calls (run_all tasks w).1 = calls w ++ new ∧ Forall P new)
    as (new & E & Hnew).
  { revert w. induction Ht as [|t ts Ht _ IH]; intros w; simpl.
    - exists []. by rewrite app_nil_r.
    - destruct (Ht w) as (new1 & E1 & H1). destruct (t w) as [w1 r]. simpl in *.
      destruct (IH w1) as (new2 & E2 & H2). destruct (run_all ts w1) as [w2 rs].
      simpl in *. exists (new1 ++ new2). rewrite E2, E1, (assoc_L (++)).
      split; [done|]. by apply Forall_app. }
  exists new. by destruct (run_all tasks w).
Qed.

Lemma logs_only_read_file_async P path :
  P (Call_read_file_async path) → logs_only P (read_file_async path).
Proof.
  intros HP. unfold read_file_async, read_text, read_bytes.
  repeat logs_only_step. destruct e; repeat logs_only_step.
Qed.

Lemma logs_only_write_file_async P path data :
  P (Call_write_file_async path) → logs_only P (write_file_async path data).
Proof.
  intros HP. unfold write_file_async, write_file_try.
  repeat logs_only_step. destruct data; repeat logs_only_step.
Qed.

(** ** Creating directories *)

Lemma locate_from_put_new root f cs loc new :
  locate_from root f cs = inr (loc, None) →
  locate_from (put root loc new) f cs = inr (loc, Some new).
Proof.
  intros Hloc. destruct (locate_from_missing _ _ _ _ Hloc) as (ploc & c & es & -> & Hp).
  erewrite locate_from_put; [|by unfold replaceable;
    rewrite (locate_from_get _ _ _ _ _ Hloc)|done].
  by erewrite get_put_same.
Qed.

Lemma mkdir_at_inv f cs w w' :
  mkdir_at f cs w = (w', inr ()) →
  ∃ loc, locate_from (fs w') f cs = inr (loc, Some (Dir [])) ∧
         stdout w' = stdout w ∧ calls w' = calls w.
Proof.
  unfold mkdir_at.
  destruct (locate_from (fs w) f cs) as [e|[loc [n|]]] eqn:Hloc; try done.
  intros [= <-]. exists loc. simpl. split; [|done]. by apply locate_from_put_new.
Qed.

Lemma mkdir_at_log f cs w :
  stdout (mkdir_at f cs w).1 = stdout w ∧ calls (mkdir_at f cs w).1 = calls w.
Proof.
  unfold mkdir_at. by destruct (locate_from (fs w) f cs) as [e|[loc [n|]]].
Qed.

(** [os.makedirs] prints nothing and enters no helper. *)
Lemma makedirs_rev_log f rcs w :
  stdout (makedirs_rev f rcs w).1 = stdout w ∧ calls (makedirs_rev f rcs w).1 = calls w.
Proof.
  revert w. induction rcs as [|tail rhead IH]; intros w; [done|].
  cbn [makedirs_rev]. destruct rhead as [|c rhead]; [apply mkdir_at_log|].
  case_bool_decide; [apply IH|]. unfold exists_at. run.
  destruct (match locate_from (fs w) "" (reverse (c :: rhead)) with
            | inr (_, Some _) => true | _ => false end); [apply mkdir_at_log|].
  specialize (IH w).
  destruct (makedirs_rev f (c :: rhead) w) as [w1 [e|[]]]; simpl in IH.
  - destruct IH as [<- <-]. destruct e; try done. simpl.
    case_bool_decide; [done|apply mkdir_at_log].
  - destruct IH as [<- <-]. case_bool_decide; [done|apply mkdir_at_log].
Qed.

(** Where [os.makedirs] returns, the path is an empty directory. *)
Lemma makedirs_rev_inv f rcs w w' :
  leaf_rev rcs ≠ "." →
  makedirs_rev f rcs w = (w', inr ()) →
  ∃ loc, locate_from (fs w') f (reverse rcs) = inr (loc, Some (Dir [])).
Proof.
  revert w. induction rcs as [|tail rhead IH]; intros w Hleaf; [done|].
  assert (∀ w0, mkdir_at f (reverse (tail :: rhead)) w0 = (w', inr ()) →
    ∃ loc, locate_from (fs w') f (reverse (tail :: rhead)) = inr (loc, Some (Dir [])))
    as Hmk.
  { intros w0 Hmk. destruct (mkdir_at_inv _ _ _ _ Hmk) as (loc & Hloc & _). by eauto. }
  cbn [makedirs_rev]. destruct rhead as [|c rhead]; [apply Hmk|].
  cbn [leaf_rev] in Hleaf. case_bool_decide as Htail.
  - subst tail. intros Hrec. destruct (IH _ Hleaf Hrec) as (loc & Hloc).
    exists loc. rewrite reverse_cons, locate_from_snoc, Hloc. done.
  - rewrite (bool_decide_eq_false_2 (tail = ".")) by done.
    unfold exists_at. run.
    destruct (match locate_from (fs w) "" (reverse (c :: rhead)) with
              | inr (_, Some _) => true | _ => false end); [apply Hmk|].
    destruct (makedirs_rev f (c :: rhead) w) as [w1 [e|[]]]; [|apply Hmk].
    destruct e; try done. apply Hmk.
Qed.

Lemma os_makedirs_inv path w w' :
  leaf path ≠ "." →
  os_makedirs path w = (w', inr ()) →
  (∃ loc, locate (fs w') path = inr (loc, Some (Dir []))) ∧
  stdout w' = stdout w ∧ calls w' = calls w.
Proof.
  unfold os_makedirs, leaf, locate. case_bool_decide; [done|].
  intros Hleaf Hmk. split.
  - destruct (makedirs_rev_inv _ _ _ _ Hleaf Hmk) as (loc & Hloc).
    rewrite reverse_involutive in Hloc. by eauto.
  - pose proof (makedirs_rev_log path (reverse (split_slash path)) w) as Hlog.
    by rewrite Hmk in Hlog.
Qed.

Lemma os_makedirs_log path w :
  stdout (os_makedirs path w).1 = stdout w ∧ calls (os_makedirs path w).1 = calls w.
Proof.
  unfold os_makedirs. case_bool_decide; [done|]. apply makedirs_rev_log.
Qed.

(** Every proper prefix of a path that resolves is a directory. *)
Lemma locate_head root head rest st :
  head ≠ "" →
  locate root (head +:+ "/" +:+ rest) = inr st →
  path_isdir root head = true.
Proof.
  unfold path_isdir, locate. intros Hhead.
  rewrite (bool_decide_eq_false_2 (head = "")) by done.
  case_bool_decide; [done|]. rewrite split_slash_app_slash. intros Hloc.
  apply locate_from_prefix in Hloc as (loc & es & Hloc);
    [|apply split_slash_nonempty].
  by rewrite (locate_from_filename _ _ head _ _ Hloc).
Qed.

(** ** Writing under a regular file *)

Lemma locate_under_file root path loc d rest :
  locate root path = inr (loc, Some (File d)) →
  locate root (path +:+ "/" +:+ rest)
    = inl (NotADirectoryError (path +:+ "/" +:+ rest)).
Proof.
  unfold locate. case_bool_decide; [done|]. intros Hloc.
  rewrite bool_decide_eq_false_2.
  2:{ intros [? ?]%str_app_eq_empty. done. }
  rewrite split_slash_app_slash. unfold locate_from. rewrite foldl_app.
  apply (locate_from_filename _ _ (path +:+ "/" +:+ rest)) in Hloc.
  unfold locate_from in Hloc. rewrite Hloc.
  pose proof (split_slash_nonempty rest).
  destruct (split_slash rest) as [|c cs]; [done|]. simpl.
  apply foldl_step_error.
Qed.

Lemma locate_file_no_trailing_slash root path loc d :
  locate root path = inr (loc, Some (File d)) → str_endswith path "/" = false.
Proof.
  unfold locate. case_bool_decide; [done|]. intros Hloc.
  destruct (str_endswith path "/") eqn:Hend; [|done].
  destruct (split_slash_app_trailing path "" Hend) as (cs & E & _).
  rewrite E, locate_from_snoc in Hloc.
  destruct (step_inr_inv _ _ _ _ _ Hloc) as (loc0 & es0 & E0).
  by rewrite E0 in Hloc.
Qed.

Lemma str_startswith_slash_name k dtype :
  str_startswith (k +:+ "." +:+ dtype) "/" = str_startswith k "/".
Proof. by destruct k. Qed.

(** The path the writers build for an entry whose identifier is relative,
    when the target is a regular file. *)
Lemma os_path_join_under_file root path loc d k dtype :
  locate root path = inr (loc, Some (File d)) →
  str_startswith k "/" = false →
  os_path_join path (k +:+ "." +:+ dtype) = path +:+ "/" +:+ k +:+ "." +:+ dtype.
Proof.
  intros Hloc Hk. unfold os_path_join.
  rewrite str_startswith_slash_name, Hk.
  rewrite (locate_file_no_trailing_slash _ _ _ _ Hloc).
  rewrite bool_decide_eq_false_2; [done|]. intros ->. by vm_compute in Hloc.
Qed.

Lemma open_w_error p e w : locate (fs w) p = inl e → open_w p w = (w, inl e).
Proof. unfold open_w. by intros ->. Qed.

Lemma write_file_error p e data w :
  locate (fs w) p = inl e →
  (∃ line, write_file p data w = (printed (entered w (Call_write_file p)) line, inr ())) ∧
  (∃ line, write_file_async p data w
     = (printed (entered w (Call_write_file_async p)) line, inr ())).
Proof.
  intros Hloc. split.
  - pose proof (swallows_write_file p data w) as Hs. unfold write_file_try in Hs. run.
    rewrite open_w_error with (e := e) in Hs; done.
  - pose proof (swallows_write_file_async p data w) as Hs. unfold write_file_try in Hs.
    run. rewrite open_w_error with (e := e) in Hs; done.
Qed.

Lemma write_json_error `{Libs} p data indent w :
  (∀ p', ∃ e, locate (fs w) (p +:+ p') = inl e) →
  (∃ line, write_json p data indent w
     = (printed (entered w (Call_write_json p)) line, inr ())) ∧
  (∃ line, write_json_async p data indent w
     = (printed (entered w (Call_write_json_async p)) line, inr ())).
Proof.
  intros Hloc.
  assert (∃ e, locate (fs w) (if str_endswith p ".json" then p else p +:+ ".json")
               = inl e) as [e He].
  { destruct (str_endswith p ".json"); [|apply Hloc].
    destruct (Hloc "") as [e He]. rewrite str_app_empty_r in He. by eauto. }
  split.
  - pose proof (swallows_write_json p data indent w) as Hs.
    unfold write_json_try in Hs. run.
    rewrite open_w_error with (e := e) in Hs; done.
  - pose proof (swallows_write_json_async p data indent w) as Hs.
    unfold write_json_async_try in Hs. run.
    rewrite open_w_error with (e := e) in Hs; done.
Qed.

Lemma write_df_error `{Libs} p data dtype e w :
  locate (fs w) p = inl e →
  ∃ line, write_df p data dtype w
    = (printed (entered w (Call_write_df p dtype)) line, inr ()).
Proof.
  intros Hloc. pose proof (swallows_write_df p data dtype w) as Hs.
  assert (∃ e', write_df_try p data dtype (entered w (Call_write_df p dtype))
                = (entered w (Call_write_df p dtype), inl e')) as [e' He'].
  { assert (∀ t, ∃ e', pd_write t data p (entered w (Call_write_df p dtype))
                       = (entered w (Call_write_df p dtype), inl e')) as Hpd.
    { intros t. unfold pd_write. destruct data; try by eexists.
      run. rewrite open_w_error with (e := e); [by eexists|done]. }
    unfold write_df_try. repeat case_bool_decide; try apply Hpd. by eexists. }
  by rewrite He' in Hs.
Qed.

(** One entry, the target being a regular file: the write fails in [open],
    the handler prints a line, and the tree is as it was. *)
Lemma write_entry_under_file `{Libs} path dtype item loc d w :
  locate (fs w) path = inr (loc, Some (File d)) →
  str_startswith item.1 "/" = false →
  (∃ line c, write_entry path dtype () item w
     = (World (fs w) (stdout w ++ [line]) (calls w ++ [c]), inr ())) ∧
  (∃ line c, write_task path dtype item w
     = (World (fs w) (stdout w ++ [line]) (calls w ++ [c]), inr ())).
Proof.
  intros Hloc Hk. unfold write_entry, write_task.
  rewrite (os_path_join_under_file _ _ _ _ _ dtype Hloc Hk).
  assert (∀ p', ∃ e, locate (fs w) ((path +:+ "/" +:+ item.1 +:+ "." +:+ dtype) +:+ p')
                     = inl e) as Hunder.
  { intros p'. rewrite !str_app_assoc. rewrite (locate_under_file _ _ _ _ _ Hloc).
    by eexists. }
  destruct (Hunder "") as [e He]. rewrite str_app_empty_r in He.
  unfold printed, entered.
  case_bool_decide.
  - destruct (write_json_error _ item.2 4 w Hunder) as [[l1 ->] [l2 ->]]. by eauto 6.
  - destruct (write_file_error _ _ item.2 w He) as [[l1 E1] [l2 ->]].
    split; [|by eauto]. destruct (is_frame_dtype dtype); [|rewrite E1; by eauto].
    destruct (write_df_error _ item.2 dtype _ w He) as [l ->]. by eauto.
Qed.

Lemma world_eta w : World (fs w) (stdout w) (calls w) = w.
Proof. by destruct w. Qed.


(** ** The keys of the mapping the directory readers return *)

Lemma str_take_app s t : str_take (String.length s) (s +:+ t) = s.
Proof. induction s; simpl; [by destruct t|]. by f_equal. Qed.

Lemma spec_identifier_stem dtype stem :
  spec_identifier dtype (stem +:+ "." +:+ dtype) = stem.
Proof.
  unfold spec_identifier. rewrite str_endswith_app, str_length_app.
  replace (String.length stem + String.length ("." +:+ dtype)
           - String.length ("." +:+ dtype)) with (String.length stem) by lia.
  apply str_take_app.
Qed.

Lemma identifier_well_named dtype file :
  str_has dot dtype = false → well_named dtype file →
  identifier dtype file = spec_identifier dtype file.
Proof.
  intros Hd (stem & -> & Hstem). rewrite spec_identifier_stem.
  by apply str_replace_suffix.
Qed.

Lemma dom_dict_of_items items :
  dom (dict_of_items items) = (list_to_set items.*1 : gset string).
Proof.
  unfold dict_of_items.
  enough (∀ d : gmap string pyval,
    dom (foldl (λ d kv, <[kv.1 := kv.2]> d) d items) = dom d ∪ list_to_set items.*1)
    as Hgen by (rewrite Hgen; set_solver).
  induction items as [|[k v] items IH]; intros d; simpl.
  - set_solver.
  - rewrite IH, dom_insert_L. set_solver.
Qed.

Lemma read_entry_inv `{Libs} path dtype m0 file w w1 m1 :
  read_entry path dtype m0 file w = (w1, inr m1) →
  if str_endswith file dtype then ∃ v, m1 = <[identifier dtype file := v]> m0
  else m1 = m0.
Proof.
  unfold read_entry, identifier. destruct (str_endswith file dtype); [|by intros [= _ <-]].
  repeat case_match; run; intros Hr.
  - destruct (read_json _ w) as [w2 [e|v]]; [done|]. injection Hr as _ <-. by eauto.
  - destruct (read_df _ _ w) as [w2 [e|v]]; [done|]. injection Hr as _ <-. by eauto.
  - destruct (read_file _ w) as [w2 [e|v]]; [done|]. injection Hr as _ <-. by eauto.
Qed.

Lemma for_each_read_entry_dom `{Libs} path dtype files m0 w w' m :
  for_each files (read_entry path dtype) m0 w = (w', inr m) →
  dom m = dom m0 ∪
    list_to_set (identifier dtype <$> filter (λ f, str_endswith f dtype = true) files).
Proof.
  revert m0 w. induction files as [|file files IH]; intros m0 w; cbn [for_each]; run.
  - intros [= _ <-]. set_solver.
  - destruct (read_entry path dtype m0 file w) as [w1 [e|m1]] eqn:E; [done|].
    intros Hrest. rewrite (IH _ _ Hrest). apply read_entry_inv in E.
    rewrite filter_cons. destruct (str_endswith file dtype) eqn:Hend.
    + destruct E as [v ->]. rewrite decide_True by done.
      rewrite fmap_cons, dom_insert_L. set_solver.
    + subst m1. by rewrite decide_False by done.
Qed.

Lemma plan_entry_foldl `{Libs} path dtype files tasks0 idents0 :
  ∃ tasks,
    foldl (plan_entry path dtype) (tasks0, idents0) files
      = (tasks0 ++ tasks,
         idents0 ++ ((λ f, if bool_decide (dtype ≠ "all")
                           then identifier dtype f else f)
                       <$> filter (λ f, str_endswith f dtype = true) files)) ∧
    length tasks = length (filter (λ f, str_endswith f dtype = true) files).
Proof.
  revert tasks0 idents0. induction files as [|file files IH]; intros tasks0 idents0.
  - exists []. by rewrite !app_nil_r.
  - cbn [foldl plan_entry]. rewrite filter_cons.
    destruct (str_endswith file dtype) eqn:Hend.
    + rewrite decide_True by done. rewrite fmap_cons.
      destruct (bool_decide (dtype = "json"));
        match goal with
        | |- context [foldl _ (tasks0 ++ [?t], ?i) files] =>
            destruct (IH (tasks0 ++ [t]) i) as (tasks & -> & Hlen);
            exists (t :: tasks)
        end; rewrite <-!(assoc_L (++)); simpl; by rewrite Hlen.
    + rewrite decide_False by done. apply IH.
Qed.

Lemma run_all_length {A} (tasks : list (M A)) w :
  length (run_all tasks w).2 = length tasks.
Proof.
  revert w. induction tasks as [|t ts IH]; intros w; simpl; [done|].
  destruct (t w) as [w1 r]. specialize (IH w1).
  destruct (run_all ts w1) as [w2 rs]. simpl in *. by rewrite IH.
Qed.

Lemma first_exception_length {A} (rs : list (exn + A)) l :
  first_exception rs = inr l → length l = length rs.
Proof.
  revert l. induction rs as [|[e|a] rs IH]; intros l; simpl.
  - by intros [= <-].
  - done.
  - destruct (first_exception rs); [done|]. intros [= <-]. simpl. by rewrite (IH _ eq_refl).
Qed.

Lemma gather_length {A} (tasks : list (M A)) w w' l :
  gather tasks w = (w', inr l) → length l = length tasks.
Proof.
  unfold gather. pose proof (run_all_length tasks w) as Hlen.
  destruct (run_all tasks w) as [w1 rs]. intros [= _ Hfirst].
  rewrite (first_exception_length _ _ Hfirst). done.
Qed.

(** ** Writing an entry and reading it back *)

Lemma locate_put root q new path loc o :
  replaceable root q →
  locate root path = inr (loc, o) →
  locate (put root q new) path = inr (loc, get (put root q new) loc).
Proof.
  unfold locate. case_bool_decide; [done|]. by apply locate_from_put.
Qed.

Lemma locate_get root path loc o : locate root path = inr (loc, o) → get root loc = o.
Proof. unfold locate. case_bool_decide; [done|]. apply locate_from_get. Qed.

(** [open(p, "w")] and [write(text)] for a new name of a directory. *)
Lemma store_new_file path name text loc es w :
  locate (fs w) path = inr (loc, Some (Dir es)) →
  plain_name name → assoc name es = None →
  ∃ w1 w2,
    open_w (os_path_join path name) w = (w1, inr (loc ++ [name])) ∧
    append_at (loc ++ [name]) text w1 = (w2, inr ()) ∧
    locate (fs w2) path = inr (loc, Some (Dir (es ++ [(name, File text)]))) ∧
    stdout w2 = stdout w ∧ calls w2 = calls w.
Proof.
  intros Hloc Hname Hnew. pose proof (locate_get _ _ _ _ Hloc) as Hget.
  unfold open_w. rewrite (locate_join _ _ _ _ _ Hloc Hname), Hnew.
  eexists _, _. split; [done|]. unfold append_at. cbn [fs stdout calls].
  rewrite (get_put_same _ _ _ _ _ Hget). split; [done|]. cbn [fs stdout calls].
  split; [|done].
  assert (replaceable (fs w) (loc ++ [name])) as Hr1.
  { unfold replaceable. by rewrite (get_snoc _ _ _ _ Hget), Hnew. }
  pose proof (locate_put _ _ (File "") _ _ _ Hr1 Hloc) as Hloc1.
  rewrite (get_put_parent _ _ _ _ _ Hget) in Hloc1.
  pose proof (locate_get _ _ _ _ Hloc1) as Hget1.
  assert (replaceable (put (fs w) (loc ++ [name]) (File "")) (loc ++ [name])) as Hr2.
  { unfold replaceable. by rewrite (get_put_same _ _ _ _ _ Hget). }
  rewrite (locate_put _ _ (File ("" +:+ text)) _ _ _ Hr2 Hloc1).
  rewrite (get_put_parent _ _ _ _ _ Hget1), put_entry_put_entry.
  by rewrite (put_entry_fresh _ _ _ Hnew).
Qed.

Lemma entry_name_plain dtype ident :
  dtype ≠ "" → str_has dot dtype = false → str_has slash dtype = false →
  str_has slash ident = false →
  plain_name (entry_name dtype ident).
Proof.
  intros Hne Hdot Hslash Hident. unfold plain_name, entry_name.
  rewrite !str_has_app, Hident, Hslash.
  split; [done|].
  destruct dtype as [|a dtype]; [done|]. simpl in Hdot.
  apply orb_false_iff in Hdot as [Ha%bool_decide_eq_false _].
  repeat split.
  - by destruct ident.
  - destruct ident as [|b [|? ?]]; simpl; intros [=]. 
  - destruct ident as [|b [|? [|? ?]]]; simpl; intros [=]; subst;
      first [by apply Ha | by destruct dtype].
Qed.

Lemma entry_name_endswith dtype ident :
  str_endswith (entry_name dtype ident) dtype = true.
Proof.
  unfold entry_name. rewrite <-(str_app_assoc ident "." dtype). apply str_endswith_app.
Qed.

Lemma entry_name_endswith_dot dtype ident :
  str_endswith (entry_name dtype ident) ("." +:+ dtype) = true.
Proof. apply str_endswith_app. Qed.

Lemma os_path_join_endswith path name suffix :
  str_has slash name = false →
  str_endswith name suffix = true → str_endswith (os_path_join path name) suffix = true.
Proof.
  intros Hname [t ->]%str_endswith_inv. rewrite os_path_join_name by done.
  destruct (_ || _); rewrite <-!str_app_assoc; apply str_endswith_app.
Qed.

(** One entry written into the directory at [path]: a new file with the
    stored text, nothing printed. *)
Lemma write_entry_new `{Libs} path dtype ident v loc es w :
  dtype ≠ "" → str_has dot dtype = false → str_has slash dtype = false →
  is_frame_dtype dtype = false →
  locate (fs w) path = inr (loc, Some (Dir es)) →
  str_has slash ident = false →
  assoc (entry_name dtype ident) es = None →
  round_trips dtype v →
  ∃ w', write_entry path dtype () (ident, v) w = (w', inr ()) ∧
        locate (fs w') path
          = inr (loc, Some (Dir (es ++ [(entry_name dtype ident,
                                          File (stored_text dtype v))]))).
Proof.
  intros Hne Hdot Hslash Hframe Hloc Hident Hnew [Hcr Hv].
  pose proof (entry_name_plain _ _ Hne Hdot Hslash Hident) as Hplain.
  unfold write_entry. cbn [fst snd]. fold (entry_name dtype ident).
  rewrite Hframe. unfold stored_text in *.
  destruct (bool_decide (dtype = "json")) eqn:Hjson.
  - apply bool_decide_eq_true in Hjson as ->. destruct Hv as [Hcomplete Hloads].
    unfold write_json.
    rewrite os_path_join_endswith;
      [|by destruct Hplain|apply (entry_name_endswith_dot "json")].
    destruct (store_new_file path _ (json_encode 4 v).1 loc es
                (entered w (Call_write_json (os_path_join path (entry_name "json" ident))))
                Hloc Hplain Hnew) as (w1 & w2 & Hopen & Happend & Hloc2 & _).
    unfold write_json_try, entered in *. run. rewrite Hopen.
    destruct (json_encode 4 v) as [text complete]. simpl in *. subst complete.
    rewrite Happend. by eauto.
  - destruct v as [| | |text| | |]; try done. clear Hv.
    destruct (store_new_file path _ text loc es
                (entered w (Call_write_file (os_path_join path (entry_name dtype ident))))
                Hloc Hplain Hnew) as (w1 & w2 & Hopen & Happend & Hloc2 & _).
    unfold write_file, write_file_try, entered in *. run. rewrite Hopen, Happend.
    by eauto.
Qed.

Lemma for_each_app {A B} (xs ys : list B) (body : A → B → M A) acc w :
  for_each (xs ++ ys) body acc w = (for_each xs body acc ≫= for_each ys body) w.
Proof.
  revert acc w. induction xs as [|x xs IH]; intros acc w; [done|].
  cbn [for_each app]. run. destruct (body acc x w) as [w1 [e|acc1]]; [done|].
  apply IH.
Qed.

Lemma str_app_inj_r s s' t : s +:+ t = s' +:+ t → s = s'.
Proof.
  revert s'. induction s as [|a s IH]; intros [|b s']; simpl; intros Heq.
  - done.
  - apply (f_equal String.length) in Heq. simpl in Heq.
    rewrite str_length_app in Heq. lia.
  - apply (f_equal String.length) in Heq. simpl in Heq.
    rewrite str_length_app in Heq. lia.
  - injection Heq as -> Heq. f_equal. by apply IH.
Qed.

Lemma entry_name_inj dtype : Inj (=) (=) (entry_name dtype).
Proof. intros k k' Heq. by apply str_app_inj_r in Heq. Qed.

Lemma new_entries_names `{Libs} dtype contents :
  (new_entries dtype contents).*1 = entry_name dtype <$> contents.*1.
Proof. unfold new_entries. by rewrite <-!list_fmap_compose. Qed.

Lemma assoc_new_entries `{Libs} dtype contents k v :
  NoDup contents.*1 → (k, v) ∈ contents →
  assoc (entry_name dtype k) (new_entries dtype contents)
    = Some (File (stored_text dtype v)).
Proof.
  induction contents as [|[k' v'] contents IH]; intros Hnd Hin.
  - by apply elem_of_nil in Hin.
  - apply NoDup_cons in Hnd as [Hk' Hnd]. simpl.
    apply elem_of_cons in Hin as [[= <- <-]|Hin].
    + by rewrite decide_True.
    + rewrite decide_False; [by apply IH|].
      intros <-%entry_name_inj. apply Hk'. apply list_elem_of_fmap. by exists (k, v).
Qed.

(** The loop of the writer over a mapping whose file names are new in the
    directory. *)
Lemma write_loop_new `{Libs} path dtype contents loc es w :
  dtype ≠ "" → str_has dot dtype = false → str_has slash dtype = false →
  is_frame_dtype dtype = false →
  locate (fs w) path = inr (loc, Some (Dir es)) →
  NoDup contents.*1 →
  Forall (λ item : string * pyval,
            str_has slash item.1 = false ∧ (entry_name dtype item.1 ∉ es.*1) ∧
            round_trips dtype item.2) contents →
  ∃ w', for_each contents (write_entry path dtype) () w = (w', inr ()) ∧
        locate (fs w') path = inr (loc, Some (Dir (es ++ new_entries dtype contents))).
Proof.
  intros Hne Hdot Hslash Hframe. revert es w.
  induction contents as [|[k v] contents IH]; intros es w Hloc Hnd Hitems.
  - exists w. by rewrite app_nil_r.
  - apply NoDup_cons in Hnd as [Hk Hnd].
    apply Forall_cons in Hitems as [(Hks & Hfresh & Hv) Hitems]. simpl in *.
    destruct (write_entry_new path dtype k v loc es w) as (w1 & Hw1 & Hloc1);
      [done..|by apply assoc_None|done|].
    destruct (IH (es ++ [(entry_name dtype k, File (stored_text dtype v))]) w1)
      as (w' & Hw' & Hloc'); [done|done| |].
    { rewrite Forall_forall in Hitems. apply Forall_forall.
      intros [k' v'] Hin. destruct (Hitems _ Hin) as (? & Hfresh' & ?). simpl in *.
      split; [done|split; [|done]].
      rewrite fmap_app, elem_of_app. simpl. rewrite list_elem_of_singleton.
      intros [?|Heq%entry_name_inj]; [done|]. subst k'.
      apply Hk. apply list_elem_of_fmap. by exists (k, v'). }
    exists w'. cbn [for_each]. run. rewrite Hw1. split; [done|].
    rewrite Hloc'. by rewrite <-(assoc_L (++)).
Qed.

(** One file of the writers read back. *)
Lemma read_entry_back `{Libs} path dtype ident v m loc es w :
  dtype ≠ "" → str_has dot dtype = false → str_has slash dtype = false →
  is_frame_dtype dtype = false →
  locate (fs w) path = inr (loc, Some (Dir es)) →
  str_has slash ident = false →
  str_contains ("." +:+ dtype) ident = false →
  assoc (entry_name dtype ident) es = Some (File (stored_text dtype v)) →
  round_trips dtype v →
  ∃ w', read_entry path dtype m (entry_name dtype ident) w
          = (w', inr (<[ident := v]> m)) ∧ fs w' = fs w.
Proof.
  intros Hne Hdot Hslash Hframe Hloc Hident Hclean Hfile [Hcr Hv].
  pose proof (entry_name_plain _ _ Hne Hdot Hslash Hident) as Hplain.
  assert (str_replace ("." +:+ dtype) "" (entry_name dtype ident) = ident) as Hid
    by (by apply str_replace_suffix).
  unfold read_entry. rewrite entry_name_endswith, Hframe, !Hid.
  assert (∀ c, read_text (os_path_join path (entry_name dtype ident)) (entered w c)
               = (entered w c, inr (stored_text dtype v))) as Hread.
  { intros c. rewrite read_text_eq. unfold read_bytes, entered. run.
    rewrite (locate_join _ _ _ _ _ Hloc Hplain), Hfile.
    by rewrite universal_newlines_id. }
  destruct (bool_decide (dtype = "json")).
  - destruct Hv as [_ Hloads]. unfold read_json, read_json_try. run.
    unfold entered in Hread. rewrite Hread, Hloads.
    eexists. split; reflexivity.
  - unfold read_file. run. unfold entered in Hread. rewrite Hread.
    eexists. split; [by rewrite <-Hv|reflexivity].
Qed.

Lemma read_loop_skip `{Libs} path dtype files m w :
  Forall (λ f, str_endswith f dtype = false) files →
  for_each files (read_entry path dtype) m w = (w, inr m).
Proof.
  induction 1 as [|f files Hf _ IH]; [done|].
  assert (read_entry path dtype m f w = (w, inr m)) as Hstep
    by (unfold read_entry; by rewrite Hf).
  cbn [for_each]. run. rewrite Hstep. apply IH.
Qed.

Lemma read_loop_back `{Libs} path dtype contents loc es :
  dtype ≠ "" → str_has dot dtype = false → str_has slash dtype = false →
  is_frame_dtype dtype = false →
  Forall (λ item : string * pyval,
            str_has slash item.1 = false ∧
            str_contains ("." +:+ dtype) item.1 = false ∧
            assoc (entry_name dtype item.1) es = Some (File (stored_text dtype item.2)) ∧
            round_trips dtype item.2) contents →
  ∀ m w, locate (fs w) path = inr (loc, Some (Dir es)) →
  ∃ w', for_each (entry_name dtype <$> contents.*1) (read_entry path dtype) m w
          = (w', inr (foldl (λ d kv, <[kv.1 := kv.2]> d) m contents)) ∧
        fs w' = fs w.
Proof.
  intros Hne Hdot Hslash Hframe.
  induction 1 as [|[k v] contents (Hk & Hclean & Hfile & Hv) _ IH]; intros m w Hloc.
  - by exists w.
  - rewrite !fmap_cons. cbn [for_each foldl fst snd] in *. run.
    destruct (read_entry_back path dtype k v m loc es w) as (w1 & -> & Hfs); [done..|].
    rewrite <-Hfs in Hloc. destruct (IH (<[k := v]> m) w1 Hloc) as (w' & -> & Hfs').
    exists w'. split; [done|]. by rewrite Hfs'.
Qed.

(** ** The readers leave the tree alone *)

Lemma keeps_fs_ret {A} (a : A) : keeps_fs (mret a).
Proof. by intros w. Qed.

Lemma keeps_fs_raise {A} e : keeps_fs (raise e : M A).
Proof. by intros w. Qed.

Lemma keeps_fs_bind {A B} (m : M A) (k : A → M B) :
  keeps_fs m → (∀ a, keeps_fs (k a)) → keeps_fs (m ≫= k).
Proof.
  intros Hm Hk w. specialize (Hm w). run.
  destruct (m w) as [w1 [e|a]]; [done|]. specialize (Hk a w1). simpl in *. by rewrite Hk.
Qed.

Lemma keeps_fs_try_except {A} (m : M A) h :
  keeps_fs m → (∀ e, keeps_fs (h e)) → keeps_fs (try_except m h).
Proof.
  intros Hm Hh w. specialize (Hm w). run.
  destruct (m w) as [w1 [e|a]]; [|done]. specialize (Hh e w1). simpl in *. by rewrite Hh.
Qed.

Lemma keeps_fs_print line : keeps_fs (print line).
Proof. by intros w. Qed.

Lemma keeps_fs_enter c : keeps_fs (enter c).
Proof. by intros w. Qed.

Lemma keeps_fs_lift_os {A} (f : node → exn + A) : keeps_fs (lift_os f).
Proof. by intros w. Qed.

Lemma keeps_fs_for_each {A B} (xs : list B) (body : A → B → M A) acc :
  (∀ a x, keeps_fs (body a x)) → keeps_fs (for_each xs body acc).
Proof.
  intros Hb. revert acc. induction xs as [|x xs IH]; intros acc; [done|].
  cbn [for_each]. apply keeps_fs_bind; [apply Hb|apply IH].
Qed.

Lemma keeps_fs_gather {A} (tasks : list (M A)) :
  Forall keeps_fs tasks → keeps_fs (gather tasks).
Proof.
  induction 1 as [|t ts Ht _ IH]; intros w; [done|].
  specialize (Ht w). unfold gather in *. cbn [run_all].
  destruct (t w) as [w1 r]. specialize (IH w1). unfold keeps_fs in IH.
  destruct (run_all ts w1) as [w2 rs]. simpl in *. by etrans.
Qed.

Ltac keeps_fs_step :=
  lazymatch goal with
  | |- keeps_fs (_ ≫= _) => apply keeps_fs_bind; [|intros ?]
  | |- keeps_fs (try_except _ _) => apply keeps_fs_try_except; [|intros ?]
  | |- keeps_fs (mret _) => apply keeps_fs_ret
  | |- keeps_fs (raise _) => apply keeps_fs_raise
  | |- keeps_fs (print _) => apply keeps_fs_print
  | |- keeps_fs (enter _) => apply keeps_fs_enter
  | |- keeps_fs (lift_os _) => apply keeps_fs_lift_os
  | |- keeps_fs (match ?x with _ => _ end) => destruct x
  end.

Lemma keeps_fs_read_text path : keeps_fs (read_text path).
Proof. unfold read_text, read_bytes. repeat keeps_fs_step. Qed.

Lemma keeps_fs_read_file path : keeps_fs (read_file path).
Proof. unfold read_file. repeat (keeps_fs_step || apply keeps_fs_read_text). Qed.

Lemma keeps_fs_read_file_async path : keeps_fs (read_file_async path).
Proof. unfold read_file_async. repeat (keeps_fs_step || apply keeps_fs_read_text). Qed.

Lemma keeps_fs_read_json `{Libs} path : keeps_fs (read_json path).
Proof.
  unfold read_json, read_json_try. repeat (keeps_fs_step || apply keeps_fs_read_text).
Qed.

Lemma keeps_fs_read_json_async `{Libs} path : keeps_fs (read_json_async path).
Proof.
  unfold read_json_async, read_json_try.
  repeat (keeps_fs_step || apply keeps_fs_read_text).
Qed.

Lemma keeps_fs_read_df `{Libs} path dtype : keeps_fs (read_df path dtype).
Proof.
  unfold read_df, read_df_try, pd_read, read_bytes.
  repeat (keeps_fs_step || case_bool_decide).
Qed.

Lemma keeps_fs_read_entry `{Libs} path dtype contents file :
  keeps_fs (read_entry path dtype contents file).
Proof.
  unfold read_entry.
  repeat first [ apply keeps_fs_read_json | apply keeps_fs_read_df
               | apply keeps_fs_read_file | keeps_fs_step ].
Qed.

Lemma keeps_fs_read_dir_contents `{Libs} path dtype :
  keeps_fs (read_dir_contents path dtype).
Proof.
  unfold read_dir_contents, os_path_exists, os_path_isdir, os_listdir.
  repeat first [ apply keeps_fs_for_each; intros; apply keeps_fs_read_entry
               | keeps_fs_step ].
Qed.

Lemma keeps_fs_read_dir_contents_async `{Libs} path dtype :
  keeps_fs (read_dir_contents_async path dtype).
Proof.
  intros w. unfold read_dir_contents_async, os_path_exists, os_path_isdir, os_listdir.
  run.
  assert (∀ plan : list (M pyval) * list string, Forall keeps_fs plan.1 →
    fs (let (w', r) := gather plan.1 w in
        match r with
        | inl e => (w', inl e)
        | inr a => (w', inr (dict_of_items (zip plan.2 a)))
        end).1 = fs w) as Hgather.
  { intros plan Hplan. pose proof (keeps_fs_gather _ Hplan w) as Hg.
    by destruct (gather plan.1 w) as [w' [e|rs]]. }
  destruct (path_exists (fs w) path && path_isdir (fs w) path);
    [|by apply (Hgather ([], []))].
  destruct (locate (fs w) path) as [e|[loc [[d|es]|]]]; try done.
  apply Hgather. apply plan_entry_tasks; [|done].
  intros file. destruct (bool_decide (dtype = "json")).
  - apply keeps_fs_read_json_async.
  - apply keeps_fs_bind; [apply keeps_fs_read_file_async|intros ?; apply keeps_fs_ret].
Qed.

(** ** Synchronous and asynchronous helpers side by side *)

Lemma agree_ret {A} (a : A) : agree (mret a) (mret a).
Proof. by intros w1 w2 Hw. Qed.

Lemma agree_raise {A} e : agree (raise e : M A) (raise e).
Proof. by intros w1 w2 Hw. Qed.

Lemma agree_bind {A B} (m1 m2 : M A) (k1 k2 : A → M B) :
  agree m1 m2 → (∀ a, agree (k1 a) (k2 a)) → agree (m1 ≫= k1) (m2 ≫= k2).
Proof.
  intros Hm Hk w1 w2 Hw. destruct (Hm w1 w2 Hw) as [Hw' Hr]. run.
  destruct (m1 w1) as [w1' r1], (m2 w2) as [w2' r2]. simpl in *. subst r2.
  destruct r1 as [e|a]; [done|]. by apply Hk.
Qed.

Lemma agree_try_except {A} (m1 m2 : M A) h1 h2 :
  agree m1 m2 → (∀ e, agree (h1 e) (h2 e)) →
  agree (try_except m1 h1) (try_except m2 h2).
Proof.
  intros Hm Hh w1 w2 Hw. destruct (Hm w1 w2 Hw) as [Hw' Hr]. run.
  destruct (m1 w1) as [w1' r1], (m2 w2) as [w2' r2]. simpl in *. subst r2.
  destruct r1 as [e|a]; [|done]. by apply Hh.
Qed.

Lemma agree_print line : agree (print line) (print line).
Proof. intros w1 w2 [Hfs Hout]. unfold same_files. run. by rewrite Hout. Qed.

(** The call log is the one thing the two families of helpers do not
    share. *)
Lemma agree_enter c1 c2 : agree (enter c1) (enter c2).
Proof. by intros w1 w2 Hw. Qed.

Lemma agree_lift_os {A} (f : node → exn + A) : agree (lift_os f) (lift_os f).
Proof. intros w1 w2 [Hfs Hout]. unfold same_files. run. by rewrite Hfs. Qed.

Lemma agree_open_w path : agree (open_w path) (open_w path).
Proof.
  intros w1 w2 [Hfs Hout]. unfold open_w, same_files. rewrite Hfs.
  by destruct (locate (fs w2) path) as [e|[loc [[d|es]|]]].
Qed.

Lemma agree_append_at loc text : agree (append_at loc text) (append_at loc text).
Proof.
  intros w1 w2 [Hfs Hout]. unfold append_at, same_files. rewrite Hfs.
  by destruct (get (fs w2) loc) as [[d|es]|].
Qed.

Ltac agree_step :=
  lazymatch goal with
  | |- agree (_ ≫= _) (_ ≫= _) => apply agree_bind; [|intros ?]
  | |- agree (try_except _ _) (try_except _ _) => apply agree_try_except; [|intros ?]
  | |- agree (mret _) (mret _) => apply agree_ret
  | |- agree (raise _) (raise _) => apply agree_raise
  | |- agree (print _) (print _) => apply agree_print
  | |- agree (enter _) (enter _) => apply agree_enter
  | |- agree (lift_os _) (lift_os _) => apply agree_lift_os
  | |- agree (open_w _) (open_w _) => apply agree_open_w
  | |- agree (append_at _ _) (append_at _ _) => apply agree_append_at
  | |- agree (match ?x with _ => _ end) (match ?x with _ => _ end) => destruct x
  end.

Lemma agree_read_file path : agree (read_file path) (read_file_async path).
Proof. unfold read_file, read_file_async, read_text, read_bytes. repeat agree_step. Qed.

Lemma agree_write_file path data : agree (write_file path data) (write_file_async path data).
Proof. unfold write_file, write_file_async, write_file_try. repeat agree_step. Qed.

Lemma agree_read_json `{Libs} path : agree (read_json path) (read_json_async path).
Proof.
  unfold read_json, read_json_async, read_json_try, read_text, read_bytes.
  repeat agree_step.
Qed.

(** [json.dump] to the file and [json.dumps] before the write give the same
    file when the value is serialisable. *)
Lemma agree_write_json `{Libs} path data indent :
  (json_encode indent data).2 = true →
  agree (write_json path data indent) (write_json_async path data indent).
Proof.
  intros Hc. unfold write_json, write_json_async, write_json_try, write_json_async_try.
  destruct (json_encode indent data) as [text complete]. simpl in Hc. subst complete.
  apply agree_bind; [apply agree_enter|intros _].
  apply agree_try_except; [|intros e; apply agree_print].
  apply agree_bind; [apply agree_open_w|intros loc].
  intros w1 w2 Hw. destruct (agree_append_at loc text w1 w2 Hw) as [Hw' Hr]. run.
  destruct (append_at loc text w1) as [w1' [e|[]]],
    (append_at loc text w2) as [w2' [e'|[]]]; done.
Qed.

(** ** The directory helpers side by side *)

(** The plan of the async reader: one task and one key for every matching
    name, in the order of the listing. *)
Lemma plan_entry_spec `{Libs} path dtype files tasks0 idents0 :
  foldl (plan_entry path dtype) (tasks0, idents0) files
    = (tasks0 ++ (read_task path dtype <$> matching dtype files),
       idents0 ++ (async_key dtype <$> matching dtype files)).
Proof.
  unfold matching. revert tasks0 idents0.
  induction files as [|file files IH]; intros tasks0 idents0.
  - by rewrite !app_nil_r.
  - cbn [foldl plan_entry]. rewrite filter_cons.
    destruct (str_endswith file dtype) eqn:Hend.
    + rewrite decide_True by done. rewrite !fmap_cons.
      trans (foldl (plan_entry path dtype)
               (tasks0 ++ [read_task path dtype file],
                idents0 ++ [async_key dtype file]) files).
      { f_equal. unfold read_task, async_key.
        by destruct (bool_decide (dtype = "json")). }
      rewrite IH. by rewrite <-!(assoc_L (++)).
    + rewrite decide_False by done. apply IH.
Qed.


(** One matching file, read by the loop of the sync reader and by the task
    of the async reader. *)
Lemma read_entry_task `{Libs} path dtype m file w1 w2 :
  is_frame_dtype dtype = false → str_endswith file dtype = true →
  same_files w1 w2 →
  same_files (read_entry path dtype m file w1).1 (read_task path dtype file w2).1 ∧
  (read_entry path dtype m file w1).2
    = match (read_task path dtype file w2).2 with
      | inl e => inl e
      | inr v => inr (<[str_replace ("." +:+ dtype) "" file := v]> m)
      end.
Proof.
  intros Hframe Hend Hw. unfold read_entry, read_task. rewrite Hend, Hframe.
  destruct (bool_decide (dtype = "json")).
  - destruct (agree_read_json (os_path_join path file) w1 w2 Hw) as [Hw' Hr]. run.
    destruct (read_json (os_path_join path file) w1) as [w1' r1],
      (read_json_async (os_path_join path file) w2) as [w2' r2].
    simpl in *. subst r2. by destruct r1.
  - destruct (agree_read_file (os_path_join path file) w1 w2 Hw) as [Hw' Hr]. run.
    destruct (read_file (os_path_join path file) w1) as [w1' r1],
      (read_file_async (os_path_join path file) w2) as [w2' r2].
    simpl in *. subst r2. by destruct r1.
Qed.

Lemma read_loops_agree `{Libs} path dtype files :
  is_frame_dtype dtype = false →
  Forall (λ f, str_endswith f dtype = true) files →
  ∀ m w1 w2, same_files w1 w2 →
    (for_each files (read_entry path dtype) m w1).2
      = match first_exception (run_all (read_task path dtype <$> files) w2).2 with
        | inl e => inl e
        | inr vs =>
            inr (foldl (λ d (kv : string * pyval), <[kv.1 := kv.2]> d) m
                   (zip (str_replace ("." +:+ dtype) "" <$> files) vs))
        end ∧
    (∀ m', (for_each files (read_entry path dtype) m w1).2 = inr m' →
           same_files (for_each files (read_entry path dtype) m w1).1
                      (run_all (read_task path dtype <$> files) w2).1).
Proof.
  intros Hframe. induction 1 as [|file files Hend _ IH]; intros m w1 w2 Hw; [done|].
  destruct (read_entry_task path dtype m file w1 w2 Hframe Hend Hw) as [Hw' Hr].
  rewrite fmap_cons. cbn [for_each run_all]. run.
  destruct (read_entry path dtype m file w1) as [w1' r1],
    (read_task path dtype file w2) as [w2' r2]. simpl in *.
  destruct r2 as [e|v]; subst r1.
  - destruct (run_all (read_task path dtype <$> files) w2') as [w2'' rs]. simpl.
    by split.
  - specialize (IH (<[str_replace ("." +:+ dtype) "" file := v]> m) w1' w2' Hw').
    destruct (run_all (read_task path dtype <$> files) w2') as [w2'' rs]. simpl in *.
    destruct IH as [IHr IHw]. split; [|done].
    rewrite IHr. by destruct (first_exception rs).
Qed.

(** One item, written by the loop of the sync writer and by the task of the
    async writer. *)
Lemma write_entry_task `{Libs} path dtype u item :
  is_frame_dtype dtype = false →
  (dtype = "json" → (json_encode 4 item.2).2 = true) →
  agree (write_entry path dtype u item) (write_task path dtype item).
Proof.
  intros Hframe Hjson. unfold write_entry, write_task. rewrite Hframe.
  case_bool_decide as Hd.
  - apply agree_write_json. by apply Hjson.
  - apply agree_write_file.
Qed.

Lemma write_loops_agree `{Libs} path dtype contents :
  is_frame_dtype dtype = false →
  (dtype = "json" →
   Forall (λ item : string * pyval, (json_encode 4 item.2).2 = true) contents) →
  ∀ w1 w2, same_files w1 w2 →
    same_files (for_each contents (write_entry path dtype) () w1).1
               (run_all (write_task path dtype <$> contents) w2).1 ∧
    (for_each contents (write_entry path dtype) () w1).2 = inr () ∧
    ∃ vs, first_exception (run_all (write_task path dtype <$> contents) w2).2 = inr vs.
Proof.
  intros Hframe. induction contents as [|item contents IH]; intros Hjson w1 w2 Hw.
  - by eauto.
  - destruct (write_entry_task path dtype () item Hframe) with (w1 := w1) (w2 := w2)
      as [Hw' Hr]; [|done|].
    { intros Hd. specialize (Hjson Hd). by apply Forall_cons in Hjson as [? _]. }
    destruct (never_raises_write_entry path dtype () item w1) as (w1' & [] & E1).
    rewrite fmap_cons. cbn [for_each run_all]. run.
    rewrite E1 in *. destruct (write_task path dtype item w2) as [w2' r2]. simpl in *.
    subst r2.
    destruct (IH (λ Hd, Forall_inv_tail (Hjson Hd)) w1' w2' Hw') as (IHw & IHr & vs & IHe).
    destruct (run_all (write_task path dtype <$> contents) w2') as [w2'' rs].
    simpl in *. rewrite IHe. by eauto.
Qed.



(** ** One file written and read back *)

Lemma put_below es c q new :
  q ≠ [] →
  put (Dir es) (c :: q) new
    = match assoc c es with
      | Some n => Dir (put_entry c (put n q new) es)
      | None => Dir es
      end.
Proof. by destruct q. Qed.

Lemma get_put_some root loc n new :
  get root loc = Some n → get (put root loc new) loc = Some new.
Proof.
  revert root. induction loc as [|c loc IH]; intros root; [done|].
  destruct root as [d|es]; [done|]. cbn [get].
  destruct (assoc c es) as [n'|] eqn:Hc; [|done]. intros Hg.
  destruct (decide (loc = [])) as [->|Hne].
  - cbn [put get]. by rewrite assoc_put_entry_eq.
  - rewrite put_below, Hc by done. cbn [get]. rewrite assoc_put_entry_eq. by apply IH.
Qed.

(** The last node stored at a location is the one that stays. *)
Lemma put_put root loc a b : put (put root loc a) loc b = put root loc b.
Proof.
  revert root. induction loc as [|c loc IH]; intros root; [done|].
  destruct root as [d|es]; [done|]. destruct (decide (loc = [])) as [->|Hne].
  - cbn [put]. by rewrite put_entry_put_entry.
  - rewrite !(put_below es) by done. destruct (assoc c es) as [n'|] eqn:Hc.
    + rewrite put_below by done.
      rewrite assoc_put_entry_eq, put_entry_put_entry. by rewrite IH.
    + rewrite put_below by done. by rewrite Hc.
Qed.

Lemma locate_put_self root path loc o new :
  locate root path = inr (loc, o) → replaceable root loc →
  locate (put root loc new) path = inr (loc, Some new).
Proof.
  intros Hloc Hrep. rewrite (locate_put _ _ _ _ _ _ Hrep Hloc). do 3 f_equal.
  destruct o as [n|].
  - apply get_put_some with n. by apply locate_get in Hloc.
  - unfold locate in Hloc. case_bool_decide; [done|].
    destruct (locate_from_missing _ _ _ _ Hloc) as (ploc & c & es & -> & Hp).
    by eapply get_put_same.
Qed.

Lemma open_w_inv path w loc :
  (open_w path w).2 = inr loc →
  ∃ o, locate (fs w) path = inr (loc, o) ∧ replaceable (fs w) loc ∧
       open_w path w = (World (put (fs w) loc (File "")) (stdout w) (calls w), inr loc).
Proof.
  unfold open_w, replaceable.
  destruct (locate (fs w) path) as [e|[loc0 [[d|es]|]]] eqn:Hloc; try done;
    intros [= <-]; eexists; (split; [done|]); by rewrite (locate_get _ _ _ _ Hloc).
Qed.

(** [open(path, "w")] and [write(text)]: the file holds [text], whatever it
    held before, and the path names it. *)
Lemma store_file path text w loc :
  (open_w path w).2 = inr loc →
  (loc0 ← open_w path; append_at loc0 text) w
    = (World (put (fs w) loc (File text)) (stdout w) (calls w), inr ()) ∧
  locate (put (fs w) loc (File text)) path = inr (loc, Some (File text)).
Proof.
  intros Hopen. destruct (open_w_inv _ _ _ Hopen) as (o & Hloc & Hrep & Heq).
  split; [|by eapply locate_put_self]. run. rewrite Heq.
  unfold append_at. cbn [fs stdout calls].
  pose proof (locate_put_self _ _ _ _ (File "") Hloc Hrep) as Hloc1.
  rewrite (locate_get _ _ _ _ Hloc1). by rewrite put_put.
Qed.

Lemma open_w_calls path w c :
  (open_w path (entered w c)).2 = (open_w path w).2.
Proof.
  unfold open_w, entered. cbn [fs stdout calls].
  by destruct (locate (fs w) path) as [e|[loc [[d|es]|]]].
Qed.

Lemma read_text_file path text w :
  file_content w path = Some text →
  read_text path w = (w, inr (universal_newlines text)).
Proof.
  unfold file_content. intros Hf. rewrite read_text_eq. unfold read_bytes. run.
  destruct (locate (fs w) path) as [e|[loc [[d|es]|]]]; try done. by injection Hf as ->.
Qed.

(** ** Writes that replace, and writes that fail *)


(** ** What the writers leave alone *)

(** A node stored at [q] changes nothing at another location: what is
    there stays of its kind, and a regular file stays as it is. *)
Lemma get_put_other root q new loc n :
  replaceable root q → get root loc = Some n → loc ≠ q →
  ∃ n', get (put root q new) loc = Some n' ∧ is_dir n' = is_dir n ∧
        (is_dir n = false → n' = n).
Proof.
  unfold replaceable.
  revert root loc n. induction q as [|c q IH]; intros root loc n Hq Hg Hne.
  - simpl in Hq. destruct root as [d|es]; [|done].
    destruct loc; [done|]. by simpl in Hg.
  - destruct root as [d|es]; [by eexists; split_and!|].
    destruct loc as [|c' loc].
    { injection Hg as <-. destruct (decide (q = [])) as [->|Hq'].
      - cbn [put get]. by eexists; split_and!.
      - rewrite put_below by done. destruct (assoc c es); cbn [get]; by eexists; split_and!. }
    cbn [get] in Hg, Hq.
    destruct (assoc c' es) as [n1|] eqn:Hc'; [|done].
    destruct (decide (q = [])) as [->|Hq'].
    + cbn [put get]. destruct (decide (c = c')) as [->|Hcc].
      * rewrite Hc' in Hq. cbn [get] in Hq. destruct n1 as [d|]; [|done].
        destruct loc; [done|]. by simpl in Hg.
      * rewrite assoc_put_entry_ne by done. rewrite Hc'. by eexists; split_and!.
    + rewrite put_below by done.
      destruct (assoc c es) as [n2|] eqn:Hc; cbn [get].
      * destruct (decide (c = c')) as [->|Hcc].
        -- rewrite assoc_put_entry_eq. rewrite Hc' in Hc. injection Hc as <-.
           apply IH; [done..|]. by intros ->.
        -- rewrite assoc_put_entry_ne by done. rewrite Hc'. by eexists; split_and!.
      * rewrite Hc'. by eexists; split_and!.
Qed.

Lemma extends_refl root : extends root root.
Proof. intros loc n Hg. by eauto. Qed.

Lemma extends_trans root1 root2 root3 :
  extends root1 root2 → extends root2 root3 → extends root1 root3.
Proof.
  intros H12 H23 loc n Hg. destruct (H12 _ _ Hg) as (n2 & Hg2 & Hk2).
  destruct (H23 _ _ Hg2) as (n3 & Hg3 & Hk3). exists n3. split; [done|]. congruence.
Qed.

(** A regular file stored over nothing or over a regular file. *)
Lemma extends_put_file root q text :
  replaceable root q → extends root (put root q (File text)).
Proof.
  intros Hq loc n Hg. destruct (decide (loc = q)) as [->|Hne].
  - rewrite (get_put_some _ _ _ _ Hg). eexists. split; [done|].
    unfold replaceable in Hq. rewrite Hg in Hq. by destruct n.
  - destruct (get_put_other root q (File text) loc n Hq Hg Hne) as (n' & ? & ? & _).
    by eauto.
Qed.

(** A node stored where there was nothing. *)
Lemma extends_put_new root q new :
  get root q = None → extends root (put root q new).
Proof.
  intros Hq loc n Hg. destruct (decide (loc = q)) as [->|Hne]; [congruence|].
  destruct (get_put_other root q new loc n) as (n' & ? & ? & _); [|done..|by eauto].
  unfold replaceable. by rewrite Hq.
Qed.

Lemma keeps_fs_keeps_entries {A} (m : M A) : keeps_fs m → keeps_entries m.
Proof. intros Hm w. rewrite (Hm w). apply extends_refl. Qed.

Lemma keeps_entries_bind {A B} (m : M A) (k : A → M B) :
  keeps_entries m → (∀ a, keeps_entries (k a)) → keeps_entries (m ≫= k).
Proof.
  intros Hm Hk w. specialize (Hm w). run.
  destruct (m w) as [w1 [e|a]]; [done|]. specialize (Hk a w1). simpl in *.
  by eapply extends_trans.
Qed.

Lemma keeps_entries_try_except {A} (m : M A) h :
  keeps_entries m → (∀ e, keeps_entries (h e)) → keeps_entries (try_except m h).
Proof.
  intros Hm Hh w. specialize (Hm w). run.
  destruct (m w) as [w1 [e|a]]; [|done]. specialize (Hh e w1). simpl in *.
  by eapply extends_trans.
Qed.

Lemma keeps_entries_for_each {A B} (xs : list B) (body : A → B → M A) acc :
  (∀ a x, keeps_entries (body a x)) → keeps_entries (for_each xs body acc).
Proof.
  intros Hb. revert acc. induction xs as [|x xs IH]; intros acc.
  - intros w. apply extends_refl.
  - cbn [for_each]. apply keeps_entries_bind; [apply Hb|apply IH].
Qed.

Lemma keeps_entries_gather {A} (tasks : list (M A)) :
  Forall keeps_entries tasks → keeps_entries (gather tasks).
Proof.
  induction 1 as [|t ts Ht _ IH]; intros w; [apply extends_refl|].
  specialize (Ht w). unfold gather in *. cbn [run_all].
  destruct (t w) as [w1 r]. specialize (IH w1). unfold keeps_entries in IH.
  destruct (run_all ts w1) as [w2 rs]. simpl in *. by eapply extends_trans.
Qed.

(** *** The per-file writers *)

Lemma append_at_fs loc text w :
  fs (append_at loc text w).1 = fs w ∨
  ∃ data, get (fs w) loc = Some (File data) ∧
          fs (append_at loc text w).1 = put (fs w) loc (File (data +:+ text)).
Proof.
  unfold append_at. destruct (get (fs w) loc) as [[data|es]|]; [|by left..].
  right. by exists data.
Qed.

(** [open(path, "w")] followed by a suite that writes to the open file or
    not at all. *)
Lemma writes_at_most_open {A} path (k : list string → M A) :
  (∀ loc w, fs (k loc w).1 = fs w ∨ ∃ text, fs (k loc w).1 = fs (append_at loc text w).1) →
  writes_at_most path (loc ← open_w path; k loc).
Proof.
  intros Hk w. run. destruct (open_w path w) as [w1 [e|loc]] eqn:Hopen.
  { left. unfold open_w in Hopen.
    destruct (locate (fs w) path) as [e'|[loc [[d|es]|]]]; by injection Hopen as <-. }
  destruct (open_w_inv path w loc) as (o & Hloc & Hrep & E); [by rewrite Hopen|].
  rewrite Hopen in E. injection E as ->. right.
  pose proof (locate_get _ _ _ _ (locate_put_self _ _ _ _ (File "") Hloc Hrep)) as Hg.
  destruct (Hk loc (World (put (fs w) loc (File "")) (stdout w) (calls w)))
    as [->|[text ->]]; cbn [fs].
  - by exists loc, "".
  - exists loc, text. split; [done|]. unfold append_at. cbn [fs]. rewrite Hg.
    cbn [fs fst]. by rewrite put_put.
Qed.

(** A method that enters, runs the suite and prints in its handler. *)
Lemma writes_at_most_handled {A} path c (suite : M A) h :
  writes_at_most path suite → (∀ e, keeps_fs (h e)) →
  writes_at_most path (enter c;; try_except suite h).
Proof.
  intros Hs Hh w. specialize (Hs (entered w c)). rewrite open_w_calls in Hs.
  run. unfold entered in Hs. cbn [fs] in Hs.
  destruct (suite _) as [w1 [e|a]]; [|done].
  specialize (Hh e w1). simpl in *. by rewrite Hh.
Qed.

Lemma writes_at_most_write_file path data :
  writes_at_most path (write_file path data) ∧
  writes_at_most path (write_file_async path data).
Proof.
  assert (writes_at_most path (write_file_try path data)) as Hs.
  { apply writes_at_most_open. intros loc w.
    destruct data; try (by left). right. by eexists. }
  split; (apply writes_at_most_handled; [done|intros e; apply keeps_fs_print]).
Qed.

Lemma writes_at_most_write_json `{Libs} path data indent :
  writes_at_most (json_path path) (write_json path data indent) ∧
  writes_at_most (json_path path) (write_json_async path data indent).
Proof.
  split; (apply writes_at_most_handled; [|intros e; apply keeps_fs_print]).
  - apply writes_at_most_open. intros loc w. right.
    exists (json_encode indent data).1. destruct (json_encode indent data) as [text []];
      run; by destruct (append_at loc text w) as [w1 [e|[]]].
  - apply writes_at_most_open. intros loc w.
    destruct (json_encode indent data) as [text []]; [|by left]. right. by eexists.
Qed.

Lemma writes_at_most_write_df `{Libs} path data dtype :
  writes_at_most path (write_df path data dtype).
Proof.
  apply writes_at_most_handled; [|intros e; apply keeps_fs_print].
  assert (∀ t, writes_at_most path (pd_write t data path)) as Hpd.
  { intros t. unfold pd_write. destruct data; try (intros w; by left).
    apply writes_at_most_open. intros loc w.
    destruct (pd_encode t f) as [e|text]; [by left|]. right. by eexists. }
  unfold write_df_try. repeat case_bool_decide; try apply Hpd. intros w. by left.
Qed.

Lemma writes_at_most_keeps_entries {A} path (m : M A) :
  writes_at_most path m → keeps_entries m.
Proof.
  intros Hm w. destruct (Hm w) as [->|(q & text & Hopen & ->)]; [apply extends_refl|].
  destruct (open_w_inv _ _ _ Hopen) as (o & _ & Hrep & _).
  by apply extends_put_file.
Qed.

Lemma keeps_entries_mkdir_at filename cs : keeps_entries (mkdir_at filename cs).
Proof.
  intros w. unfold mkdir_at.
  destruct (locate_from (fs w) filename cs) as [e|[loc [n|]]] eqn:Hloc;
    try apply extends_refl.
  cbn [fs fst]. apply extends_put_new. by apply locate_from_get in Hloc.
Qed.

Lemma keeps_entries_makedirs_rev filename rcs : keeps_entries (makedirs_rev filename rcs).
Proof.
  induction rcs as [|tail rhead IH]; [intros w; apply extends_refl|].
  cbn [makedirs_rev]. destruct rhead as [|c rhead]; [apply keeps_entries_mkdir_at|].
  case_bool_decide; [apply IH|].
  apply keeps_entries_bind; [apply keeps_fs_keeps_entries, keeps_fs_lift_os|].
  intros [|]; [apply keeps_entries_mkdir_at|].
  apply keeps_entries_bind.
  - apply keeps_entries_try_except; [apply IH|].
    intros e. apply keeps_fs_keeps_entries. destruct e; by intros w.
  - intros _. case_bool_decide; [by apply keeps_fs_keeps_entries|].
    apply keeps_entries_mkdir_at.
Qed.

Lemma keeps_entries_os_makedirs name : keeps_entries (os_makedirs name).
Proof.
  unfold os_makedirs. case_bool_decide; [by apply keeps_fs_keeps_entries|].
  apply keeps_entries_makedirs_rev.
Qed.

Lemma keeps_entries_write_entry `{Libs} path dtype u item :
  keeps_entries (write_entry path dtype u item).
Proof.
  unfold write_entry. case_bool_decide.
  - eapply writes_at_most_keeps_entries, writes_at_most_write_json.
  - destruct (is_frame_dtype dtype).
    + eapply writes_at_most_keeps_entries, writes_at_most_write_df.
    + eapply writes_at_most_keeps_entries, writes_at_most_write_file.
Qed.

Lemma keeps_entries_write_task `{Libs} path dtype item :
  keeps_entries (write_task path dtype item).
Proof.
  unfold write_task. case_bool_decide.
  - eapply writes_at_most_keeps_entries, writes_at_most_write_json.
  - eapply writes_at_most_keeps_entries, writes_at_most_write_file.
Qed.

(** ** The path the JSON writers open *)

Lemma open_w_fails path w e : (open_w path w).2 = inl e → (open_w path w).1 = w.
Proof.
  unfold open_w. by destruct (locate (fs w) path) as [e'|[loc [[d|es]|]]].
Qed.

Lemma writes_file_open {A} path (k : list string → M A) :
  (∀ loc w, fs (k loc w).1 = fs w ∨ ∃ text, fs (k loc w).1 = fs (append_at loc text w).1) →
  writes_file path (loc ← open_w path; k loc).
Proof.
  intros Hk w. destruct (open_w path w).2 as [e|loc] eqn:Hopen.
  { pose proof (open_w_fails _ _ _ Hopen) as Hw. run.
    destruct (open_w path w) as [w1 [e'|loc]]; simpl in *; by subst. }
  destruct (open_w_inv path w loc Hopen) as (o & Hloc & Hrep & E). run. rewrite E.
  pose proof (locate_get _ _ _ _ (locate_put_self _ _ _ _ (File "") Hloc Hrep)) as Hg.
  destruct (Hk loc (World (put (fs w) loc (File "")) (stdout w) (calls w)))
    as [->|[text ->]]; cbn [fs].
  - by exists "".
  - exists text. unfold append_at. cbn [fs]. rewrite Hg. cbn [fs fst]. by rewrite put_put.
Qed.

Lemma writes_file_handled {A} path c (suite : M A) h :
  writes_file path suite → (∀ e, keeps_fs (h e)) →
  writes_file path (enter c;; try_except suite h).
Proof.
  intros Hs Hh w. specialize (Hs (entered w c)). rewrite open_w_calls in Hs.
  assert (fs ((enter c;; try_except suite h) w).1 = fs (suite (entered w c)).1) as ->.
  { run. unfold entered. destruct (suite _) as [w1 [e|a]]; [|done].
    specialize (Hh e w1). simpl in *. by rewrite Hh. }
  done.
Qed.

Lemma writes_file_write_file path text :
  writes_file path (write_file path (PStr text)) ∧
  writes_file path (write_file_async path (PStr text)).
Proof.
  assert (writes_file path (write_file_try path (PStr text))) as Hs.
  { apply writes_file_open. intros loc w. right. by eexists. }
  split; (apply writes_file_handled; [done|intros e; apply keeps_fs_print]).
Qed.





(** ** The tabular helpers *)




(** ** The asynchronous round trip *)

Lemma matching_app dtype files1 files2 :
  matching dtype (files1 ++ files2) = matching dtype files1 ++ matching dtype files2.
Proof. unfold matching. apply filter_app. Qed.

Lemma matching_none dtype files :
  Forall (λ f, str_endswith f dtype = false) files → matching dtype files = [].
Proof.
  unfold matching. induction 1 as [|f files Hf _ IH]; [done|].
  rewrite filter_cons, decide_False by (by rewrite Hf). done.
Qed.

Lemma matching_all dtype files :
  Forall (λ f, str_endswith f dtype = true) files → matching dtype files = files.
Proof.
  unfold matching. induction 1 as [|f files Hf _ IH]; [done|].
  rewrite filter_cons, decide_True by done. by rewrite IH.
Qed.

(** The asynchronous round trip under the schedule of [gather], in which
    the files are created in the order of the mapping. *)
Lemma async_round_trip_in_list_order `{Libs} path contents dtype w :
  dtype ≠ "" → str_has dot dtype = false → str_has slash dtype = false →
  is_frame_dtype dtype = false → dtype ≠ "all" →
  directory_ready path dtype w →
  NoDup contents.*1 →
  Forall (λ item : string * pyval,
            file_name item.1 ∧ str_contains ("." +:+ dtype) item.1 = false ∧
            round_trips dtype item.2) contents →
  ∃ w1 w2 files,
    write_contents_to_dir_async path contents dtype w = (w1, inr ()) ∧
    os_listdir path w1 = (w1, inr files) ∧
    matching dtype files = entry_name dtype <$> contents.*1 ∧
    read_dir_contents_async path dtype w1 = (w2, inr (dict_of_items contents)).
Proof.
  intros Hne Hdot Hslash Hframe Hall Hready Hnd Hitems.
  rewrite Forall_forall in Hitems.
  assert (∃ w0 loc es,
    write_contents_to_dir_async path contents dtype w
      = (gather (write_task path dtype <$> contents);; mret ()) w0 ∧
    locate (fs w0) path = inr (loc, Some (Dir es)) ∧
    Forall (λ f, str_endswith f dtype = false) es.*1) as (w0 & loc & es & -> & Hloc & Hold).
  { unfold write_contents_to_dir_async, os_path_exists. run.
    destruct Hready as [(Hex & Hleaf & w1 & Hmk)|(files & Hlist & Hold)].
    - destruct (os_makedirs_inv _ _ _ Hleaf Hmk) as [[loc Hloc] _].
      exists w1, loc, []. by rewrite Hex, Hmk.
    - unfold os_listdir in Hlist. run. unfold path_exists.
      destruct (locate (fs w) path) as [e|[loc [[d|es]|]]] eqn:Hloc; try done.
      injection Hlist as <-. by exists w, loc, es. }
  (* the files written, by way of the loop of the synchronous writer *)
  destruct (write_loop_new path dtype contents loc es w0) as (ws & Hws & Hlocs);
    [done..| |].
  { apply Forall_forall. intros [k v] Hin.
    destruct (Hitems _ Hin) as ([Hk _] & _ & Hv). simpl in *.
    split; [done|split; [|done]]. intros Hin'.
    rewrite Forall_forall in Hold. apply Hold in Hin'.
    by rewrite entry_name_endswith in Hin'. }
  destruct (write_loops_agree path dtype contents Hframe) with (w1 := w0) (w2 := w0)
    as ([Hfs _] & _ & vs & Hvs); [|done|].
  { intros ->. apply Forall_forall. intros [k v] Hin.
    destruct (Hitems _ Hin) as (_ & _ & _ & Hv). simpl in *. by destruct Hv. }
  rewrite Hws in Hfs. unfold gather. run.
  destruct (run_all (write_task path dtype <$> contents) w0) as [w1 rs]. simpl in *.
  rewrite Hvs. rewrite Hfs in Hlocs. clear Hws Hfs Hvs ws vs rs.
  assert (matching dtype (es ++ new_entries dtype contents).*1
          = entry_name dtype <$> contents.*1) as Hmatch.
  { rewrite fmap_app, matching_app, (matching_none _ _ Hold), new_entries_names.
    apply matching_all, Forall_fmap, Forall_forall. intros k _.
    apply entry_name_endswith. }
  exists w1.
  (* the mapping read, by way of the loop of the synchronous reader *)
  destruct (read_loop_back path dtype contents loc (es ++ new_entries dtype contents))
    with (m := (∅ : gmap string pyval)) (w := w1) as (wr & Hread & _); [done..| |done|].
  { apply Forall_forall. intros [k v] Hin.
    destruct (Hitems _ Hin) as ([Hk _] & Hclean & Hv). simpl in *.
    repeat (split; [done|]). split; [|done].
    rewrite assoc_app.
    assert (assoc (entry_name dtype k) es = None) as ->.
    { apply assoc_None. intros Hin'. rewrite Forall_forall in Hold.
      apply Hold in Hin'. by rewrite entry_name_endswith in Hin'. }
    by apply assoc_new_entries. }
  destruct (read_loops_agree path dtype (entry_name dtype <$> contents.*1) Hframe)
    with (m := (∅ : gmap string pyval)) (w1 := w1) (w2 := w1) as [Hres _]; [|done|].
  { apply Forall_fmap, Forall_forall. intros k _. apply entry_name_endswith. }
  rewrite Hread in Hres. cbn [snd] in Hres.
  unfold read_dir_contents_async, os_path_exists, os_path_isdir, os_listdir, gather.
  run. unfold path_exists, path_isdir. rewrite !Hlocs. cbn [andb]. rewrite Hlocs.
  rewrite (plan_entry_spec path dtype _ [] []). cbn [app fst snd]. rewrite Hmatch.
  destruct (run_all (read_task path dtype <$> (entry_name dtype <$> contents.*1)) w1)
    as [w2 rs]. simpl in *.
  exists w2, (es ++ new_entries dtype contents).*1. split; [done|]. split; [done|].
  split; [done|].
  destruct (first_exception rs) as [e|vs]; [done|]. injection Hres as Hres.
  unfold dict_of_items. rewrite Hres. do 4 f_equal.
  apply list_fmap_ext. intros _ f _. unfold async_key. by rewrite bool_decide_eq_true_2.
Qed.

(** ** Entries that fail *)




Lemma write_df_not_a_frame `{Libs} path v dtype w :
  (∀ f, v ≠ PFrame f) →
  ∃ line, write_df path v dtype w
            = (printed (entered w (Call_write_df path dtype)) line, inr ()).
Proof.
  intros Hv. unfold write_df, write_df_try, pd_write, printed, entered. run.
  repeat case_bool_decide; destruct v; try (by destruct (Hv f)); by eexists.
Qed.


(** ** The JSON readers, by the state of the path *)





(** ** A regular file stays a regular file *)

Lemma names_a_file root path :
  path_exists root path = true ∧ path_isdir root path = false ↔
  ∃ loc d, locate root path = inr (loc, Some (File d)).
Proof.
  unfold path_exists, path_isdir. split.
  - intros [Hex Hdir]. destruct (locate root path) as [e|[loc [[d|es]|]]]; try done.
    by eauto.
  - by intros (loc & d & ->).
Qed.

Lemma writes_at_most_file_stays {A} p (m : M A) path w :
  writes_at_most p m →
  path_exists (fs w) path = true ∧ path_isdir (fs w) path = false →
  path_exists (fs (m w).1) path = true ∧ path_isdir (fs (m w).1) path = false.
Proof.
  intros Hm Hfile. destruct (Hm w) as [->|(q & text & Hopen & ->)]; [done|].
  apply names_a_file in Hfile as (loc & d & Hloc). apply names_a_file.
  destruct (open_w_inv _ _ _ Hopen) as (o & _ & Hrep & _).
  rewrite (locate_put _ _ (File text) _ _ _ Hrep Hloc).
  destruct (extends_put_file (fs w) q text Hrep loc (File d)) as (n' & -> & Hkind);
    [by apply locate_get in Hloc|].
  destruct n' as [d'|]; [by eauto|done].
Qed.

Lemma write_entry_file_stays `{Libs} path0 dtype item path w :
  path_exists (fs w) path = true ∧ path_isdir (fs w) path = false →
  (path_exists (fs (write_entry path0 dtype () item w).1) path = true ∧
   path_isdir (fs (write_entry path0 dtype () item w).1) path = false) ∧
  (path_exists (fs (write_task path0 dtype item w).1) path = true ∧
   path_isdir (fs (write_task path0 dtype item w).1) path = false).
Proof.
  intros Hfile. unfold write_entry, write_task. case_bool_decide.
  - split; (eapply writes_at_most_file_stays; [|done]);
      apply writes_at_most_write_json.
  - split.
    + destruct (is_frame_dtype dtype); (eapply writes_at_most_file_stays; [|done]).
      * apply writes_at_most_write_df.
      * apply writes_at_most_write_file.
    + eapply writes_at_most_file_stays; [|done]. apply writes_at_most_write_file.
Qed.

(** [os.path.join] drops what comes before an absolute path. *)
Lemma os_path_join_absolute a b rest :
  str_startswith b "/" = true → os_path_join a (b +:+ rest) = b +:+ rest.
Proof.
  intros Hb. unfold os_path_join.
  assert (str_startswith (b +:+ rest) "/" = true) as ->; [|done].
  destruct b as [|c b]; [done|]. simpl in *. by destruct (bool_decide (c = "/"%char)).
Qed.

(** * The claims *)




(** C2, as amended.  For a raw-text or json dtype (not empty, without "."
    and "/"), a target that does not exist and can be created, or a
    directory without entries ending with the dtype, and a mapping whose
    identifiers are distinct file names free of "." dtype and whose values
    the stored text gives back ([round_trips]): the directory writer
    returns, and when it has printed no diagnostic -- every file of the
    mapping could be opened and written, which the operating system refuses
    for a name with a NUL or one that is too long -- the directory reader
    then returns exactly the mapping. *)
Theorem write_then_read_round_trips `{Libs} path contents dtype w :
  dtype ≠ "" → str_has dot dtype = false → str_has slash dtype = false →
  is_frame_dtype dtype = false →
  directory_ready path dtype w →
  NoDup contents.*1 →
  Forall (λ item : string * pyval,
            file_name item.1 ∧ str_contains ("." +:+ dtype) item.1 = false ∧
            round_trips dtype item.2) contents →
  ∃ w1, write_contents_to_dir path contents dtype w = (w1, inr ()) ∧
        (stdout w1 = stdout w →
         ∃ w2, read_dir_contents path dtype w1 = (w2, inr (dict_of_items contents))).
Proof.
  intros Hne Hdot Hslash Hframe Hready Hnd Hitems.
  rewrite Forall_forall in Hitems.
  assert (∃ w0 loc es,
    write_contents_to_dir path contents dtype w
      = for_each contents (write_entry path dtype) () w0 ∧
    locate (fs w0) path = inr (loc, Some (Dir es)) ∧
    Forall (λ f, str_endswith f dtype = false) es.*1) as (w0 & loc & es & -> & Hloc & Hold).
  { unfold write_contents_to_dir, os_path_exists. run.
    destruct Hready as [(Hex & Hleaf & w1 & Hmk)|(files & Hlist & Hold)].
    - destruct (os_makedirs_inv _ _ _ Hleaf Hmk) as [[loc Hloc] _].
      exists w1, loc, []. by rewrite Hex, Hmk.
    - unfold os_listdir in Hlist. run. unfold path_exists.
      destruct (locate (fs w) path) as [e|[loc [[d|es]|]]] eqn:Hloc; try done.
      injection Hlist as <-. by exists w, loc, es. }
  destruct (write_loop_new path dtype contents loc es w0) as (w1 & -> & Hloc1);
    [done..| |].
  { apply Forall_forall. intros [k v] Hin.
    destruct (Hitems _ Hin) as ([Hk _] & _ & Hv). simpl in *.
    split; [done|split; [|done]]. intros Hin'.
    rewrite Forall_forall in Hold. apply Hold in Hin'.
    by rewrite entry_name_endswith in Hin'. }
  exists w1. split; [done|]. intros _.
  unfold read_dir_contents, os_path_exists, os_path_isdir, os_listdir.
  run. unfold path_exists, path_isdir. rewrite !Hloc1. cbn [andb]. rewrite Hloc1.
  rewrite fmap_app, new_entries_names, for_each_app. run.
  rewrite (read_loop_skip _ _ _ _ _ Hold).
  destruct (read_loop_back path dtype contents loc (es ++ new_entries dtype contents))
    with (m := (∅ : gmap string pyval)) (w := w1) as (w2 & Hread & _); [done..| |done|].
  { apply Forall_forall. intros [k v] Hin.
    destruct (Hitems _ Hin) as ([Hk _] & Hclean & Hv). simpl in *.
    repeat (split; [done|]). split; [|done].
    rewrite assoc_app.
    assert (assoc (entry_name dtype k) es = None) as ->.
    { apply assoc_None. intros Hin'. rewrite Forall_forall in Hold.
      apply Hold in Hin'. by rewrite entry_name_endswith in Hin'. }
    by apply assoc_new_entries. }
  exists w2. exact Hread.
Qed.

(** C2, counterexample.  The directory [data] already holds [b.txt]: the
    mapping written with the txt tag is read back with one more key.  And a
    value that is not a [str], written with the txt tag to a directory that
    is created for it, is read back as the empty string: [file.write]
    raises [TypeError], which [write_file] prints and drops. *)
Lemma round_trip_returns_older_files :
  (∃ w1,
     @write_contents_to_dir sample_libs "data" [("a", PStr "hello")] "txt" sample_world
       = (w1, inr ()) ∧
     (@read_dir_contents sample_libs "data" "txt" w1).2
       = inr (<["a" := PStr "hello"]> (<["b" := PStr "x"]> ∅)) ∧
     (@read_dir_contents sample_libs "data" "txt" w1).2
       ≠ inr (dict_of_items [("a", PStr "hello")])) ∧
  (∃ w1,
     @write_contents_to_dir sample_libs "fresh" [("a", PDict [])] "txt" sample_world
       = (w1, inr ()) ∧
     (@read_dir_contents sample_libs "fresh" "txt" w1).2
       = inr (<["a" := PStr ""]> ∅) ∧
     (@read_dir_contents sample_libs "fresh" "txt" w1).2
       ≠ inr (dict_of_items [("a", PDict [])])).
Proof.
  split.
  - eexists. split; [vm_compute; reflexivity|]. split; [vm_compute; reflexivity|].
    vm_compute. discriminate.
  - eexists. split; [vm_compute; reflexivity|]. split; [vm_compute; reflexivity|].
    vm_compute. discriminate.
Qed.

(** C2, witness: two JSON values written to a directory that is created,
    and a text written next to the files of [data]; nothing is printed. *)
Lemma write_then_read_round_trips_witness :
  (∃ w1 w2,
     @write_contents_to_dir sample_libs "out/new" [("a", PDict []); ("b", PNone)] "json"
       sample_world = (w1, inr ()) ∧
     stdout w1 = stdout sample_world ∧
     @read_dir_contents sample_libs "out/new" "json" w1
       = (w2, inr (dict_of_items [("a", PDict []); ("b", PNone)]))) ∧
  (∃ w1 w2,
     @write_contents_to_dir sample_libs "data" [("c", PStr "hello")] "md"
       sample_world = (w1, inr ()) ∧
     stdout w1 = stdout sample_world ∧
     @read_dir_contents sample_libs "data" "md" w1
       = (w2, inr (dict_of_items [("c", PStr "hello")]))).
Proof.
  split.
  - destruct (@write_then_read_round_trips sample_libs "out/new"
                [("a", PDict []); ("b", PNone)] "json" sample_world)
      as (w1 & Hwrite & Hread); try reflexivity.
    + discriminate.
    + left. split; [reflexivity|]. split; [vm_compute; discriminate|].
      eexists. vm_compute. reflexivity.
    + vm_compute. repeat constructor; set_solver.
    + repeat constructor.
    + assert (stdout w1 = stdout sample_world) as Hout.
      { vm_compute in Hwrite. by injection Hwrite as <-. }
      destruct (Hread Hout) as [w2 Hw2]. by exists w1, w2.
  - destruct (@write_then_read_round_trips sample_libs "data"
                [("c", PStr "hello")] "md" sample_world)
      as (w1 & Hwrite & Hread); try reflexivity.
    + discriminate.
    + right. eexists. split; [reflexivity|]. repeat constructor.
    + vm_compute. repeat constructor; set_solver.
    + repeat constructor.
    + assert (stdout w1 = stdout sample_world) as Hout.
      { vm_compute in Hwrite. by injection Hwrite as <-. }
      destruct (Hread Hout) as [w2 Hw2]. by exists w1, w2.
Defined.

(** C3, as amended.  Let the directory be listed as [files], and let the
    dtype have no dot.  When every listed name that ends with the dtype is
    well named (stem "." dtype, with "." dtype nowhere else in it), the keys
    of the mapping returned by the synchronous reader, and by the
    asynchronous reader for a dtype other than "all", are exactly those names
    with the trailing "." dtype removed.  For the asynchronous reader and
    the "all" sentinel nothing is removed: every key is the full name of an
    entry of the directory. *)
Theorem keys_of_directory_readers `{Libs} path dtype files w :
  os_listdir path w = (w, inr files) →
  str_has dot dtype = false →
  (Forall (λ file, str_endswith file dtype = true → well_named dtype file) files →
   ∀ w' m, read_dir_contents path dtype w = (w', inr m) →
   ∀ k, k ∈ dom m ↔
        ∃ file, file ∈ files ∧ str_endswith file dtype = true ∧
                k = spec_identifier dtype file) ∧
  (dtype ≠ "all" →
   Forall (λ file, str_endswith file dtype = true → well_named dtype file) files →
   ∀ w' m, read_dir_contents_async path dtype w = (w', inr m) →
   ∀ k, k ∈ dom m ↔
        ∃ file, file ∈ files ∧ str_endswith file dtype = true ∧
                k = spec_identifier dtype file) ∧
  (dtype = "all" →
   ∀ w' m, read_dir_contents_async path dtype w = (w', inr m) →
   ∀ k, k ∈ dom m → k ∈ files).
Proof.
  intros Hlist Hdot.
  assert (∃ loc es, locate (fs w) path = inr (loc, Some (Dir es)) ∧ files = es.*1)
    as (loc & es & Hloc & ->).
  { unfold os_listdir in Hlist. run.
    destruct (locate (fs w) path) as [e|[loc [[d|es]|]]]; try done.
    injection Hlist as <-. by eauto. }
  assert (path_exists (fs w) path && path_isdir (fs w) path = true) as Hdir.
  { unfold path_exists, path_isdir. by rewrite Hloc. }
  assert (∀ w' m, read_dir_contents_async path dtype w = (w', inr m) →
    dom m = list_to_set ((λ f, if bool_decide (dtype ≠ "all")
                               then identifier dtype f else f)
                           <$> filter (λ f, str_endswith f dtype = true) es.*1))
    as Hasync.
  { intros w' m. unfold read_dir_contents_async, os_path_exists, os_path_isdir.
    run. rewrite Hdir. rewrite Hlist.
    destruct (plan_entry_foldl path dtype es.*1 [] []) as (tasks & -> & Hlen).
    cbn [fst snd app].
    destruct (gather tasks w) as [w1 [e|results]] eqn:Hg; [done|].
    intros [= _ <-]. rewrite dom_dict_of_items, fst_zip; [done|].
    rewrite (gather_length _ _ _ _ Hg), length_fmap. lia. }
  assert (∀ k, Forall (λ file, str_endswith file dtype = true → well_named dtype file)
                 es.*1 →
    k ∈ (list_to_set (identifier dtype
           <$> filter (λ f, str_endswith f dtype = true) es.*1) : gset string) ↔
    ∃ file, file ∈ es.*1 ∧ str_endswith file dtype = true ∧
            k = spec_identifier dtype file) as Hstems.
  { intros k Hwell. rewrite elem_of_list_to_set, list_elem_of_fmap.
    rewrite Forall_forall in Hwell.
    split.
    - intros (file & -> & [Hend Hin]%list_elem_of_filter).
      exists file. repeat split; [done..|]. by apply identifier_well_named, Hwell.
    - intros (file & Hin & Hend & ->). exists file.
      split; [|by apply list_elem_of_filter].
      symmetry. by apply identifier_well_named, Hwell. }
  split; [|split].
  - intros Hwell w' m. unfold read_dir_contents, os_path_exists, os_path_isdir.
    run. rewrite Hdir, Hlist. intros Hloop k.
    rewrite (for_each_read_entry_dom _ _ _ _ _ _ _ Hloop), dom_empty_L, (left_id_L ∅ (∪)).
    by apply Hstems.
  - intros Hne Hwell w' m Hread k. rewrite (Hasync _ _ Hread).
    rewrite bool_decide_eq_true_2 by done. by apply Hstems.
  - intros -> w' m Hread k. rewrite (Hasync _ _ Hread).
    rewrite bool_decide_eq_false_2 by (by intros []).
    rewrite list_fmap_id, elem_of_list_to_set, list_elem_of_filter. tauto.
Qed.

(** C3, counterexample.  The asynchronous reader with the "all" sentinel
    returns the entry [x.all] under its full name, where the file name with
    its suffix removed is [x]. *)
Lemma all_sentinel_key_keeps_suffix :
  @os_listdir "data" all_world = (all_world, inr ["b.txt"; "x.all"]) ∧
  (@read_dir_contents_async sample_libs "data" "all" all_world).2
    = inr {["x.all" := PStr "y"]} ∧
  spec_identifier "all" "x.all" = "x" ∧
  ¬ ∃ file, file ∈ ["b.txt"; "x.all"] ∧ "x.all" = spec_identifier "all" file.
Proof.
  repeat split; try (vm_compute; reflexivity).
  intros (file & Hin & Hk).
  repeat (apply elem_of_cons in Hin as [->|Hin]; [by vm_compute in Hk|]).
  by apply elem_of_nil in Hin.
Qed.

(** C3, witness: the directory [data] of the sample tree, read as json, and
    the directory with [x.all], read by the asynchronous reader with the
    "all" sentinel. *)
Lemma keys_of_directory_readers_witness :
  (∃ m, (@read_dir_contents sample_libs "data" "json" sample_world).2 = inr m ∧
        ∀ k, k ∈ dom m ↔
             ∃ file, file ∈ ["a.json"; "b.txt"] ∧ str_endswith file "json" = true ∧
                     k = spec_identifier "json" file) ∧
  (∃ m, (@read_dir_contents_async sample_libs "data" "all" all_world).2 = inr m ∧
        ∀ k, k ∈ dom m → k ∈ ["b.txt"; "x.all"]).
Proof.
  split.
  - destruct (@read_dir_contents sample_libs "data" "json" sample_world)
      as [w' r] eqn:E.
    assert (∃ m, r = inr m) as [m ->].
    { vm_compute in E. injection E as _ <-. by eexists. }
    exists m. split; [done|].
    apply (proj1 (@keys_of_directory_readers sample_libs "data" "json"
                    ["a.json"; "b.txt"] sample_world eq_refl eq_refl)) with (w' := w');
      [|done].
    repeat constructor.
    + intros _. exists "a". split; reflexivity.
    + intros Hend. vm_compute in Hend. discriminate Hend.
  - destruct (@read_dir_contents_async sample_libs "data" "all" all_world)
      as [w' r] eqn:E.
    assert (∃ m, r = inr m) as [m ->].
    { vm_compute in E. injection E as _ <-. by eexists. }
    exists m. split; [done|].
    by apply (proj2 (proj2 (@keys_of_directory_readers sample_libs "data" "all"
                              ["b.txt"; "x.all"] all_world eq_refl eq_refl))
                eq_refl w').
Defined.

(** C5.  With a tabular dtype the asynchronous directory helpers hand every
    matching file and every entry to the raw-text helpers: no call of
    [read_df] or [write_df] enters the log. *)
Theorem async_helpers_exclude_tabular `{Libs} path contents dtype w :
  is_frame_dtype dtype = true →
  (∃ new, calls (read_dir_contents_async path dtype w).1 = calls w ++ new ∧
          Forall (λ c, is_tabular_call c = false ∧ ∃ p, c = Call_read_file_async p) new) ∧
  (∃ new, calls (write_contents_to_dir_async path contents dtype w).1 = calls w ++ new ∧
          Forall (λ c, is_tabular_call c = false ∧ ∃ p, c = Call_write_file_async p) new).
Proof.
  intros Hd.
  assert (bool_decide (dtype = "json") = false) as Hjson.
  { apply bool_decide_eq_false. by intros ->. }
  split.
  - set (P := λ c, is_tabular_call c = false ∧ ∃ p, c = Call_read_file_async p).
    assert (∀ plan : list (M pyval) * list string, Forall (logs_only P) plan.1 →
      logs_only P (results ← gather plan.1;
                   mret (dict_of_items (zip plan.2 results)))) as Hgather.
    { intros plan Hplan. apply logs_only_bind; [by apply logs_only_gather|].
      intros ?. apply logs_only_ret. }
    unfold read_dir_contents_async, os_path_exists, os_path_isdir.
    destruct (path_exists (fs w) path && path_isdir (fs w) path) eqn:E.
    2:{ specialize (Hgather ([], []) (Forall_nil_2 _) w). run. rewrite E. exact Hgather. }
    apply andb_true_iff in E as [E1 E2]. unfold path_isdir in E2.
    destruct (locate (fs w) path) as [e|[loc [[d|es]|]]] eqn:Hloc; try done.
    assert (Forall (logs_only P) (foldl (plan_entry path dtype) ([], []) es.*1).1)
      as Hplan.
    2:{ specialize (Hgather _ Hplan w). unfold os_listdir. run. rewrite E1. simpl.
        unfold path_isdir. rewrite Hloc. cbn beta iota. rewrite Hloc. exact Hgather. }
    apply plan_entry_tasks; [|done].
    intros file. rewrite Hjson. apply logs_only_bind.
    + apply logs_only_read_file_async. split; [done|by eauto].
    + intros ?. apply logs_only_ret.
  - set (P := λ c, is_tabular_call c = false ∧ ∃ p, c = Call_write_file_async p).
    apply (logs_only_bind P (os_path_exists path)); [apply logs_only_lift_os|].
    intros ex. apply logs_only_bind.
    { destruct ex; [apply logs_only_ret|apply logs_only_os_makedirs]. }
    intros _. apply logs_only_bind; [|intros ?; apply logs_only_ret].
    apply logs_only_gather, Forall_fmap, Forall_forall. intros item _.
    unfold write_task. simpl. rewrite Hjson.
    apply logs_only_write_file_async. split; [done|by eauto].
Qed.

(** C5, witness: the directory [data] read and written with the csv tag. *)
Lemma async_helpers_exclude_tabular_witness :
  (∃ new, calls (@read_dir_contents_async sample_libs "data" "csv" sample_world).1
            = calls sample_world ++ new ∧
          Forall (λ c, is_tabular_call c = false ∧ ∃ p, c = Call_read_file_async p) new) ∧
  (∃ new, calls (@write_contents_to_dir_async sample_libs "data"
                   [("t", PFrame empty_frame)] "csv" sample_world).1
            = calls sample_world ++ new ∧
          Forall (λ c, is_tabular_call c = false ∧ ∃ p, c = Call_write_file_async p) new).
Proof.
  apply (@async_helpers_exclude_tabular sample_libs "data" [("t", PFrame empty_frame)]
           "csv" sample_world).
  reflexivity.
Defined.

(** C6, on the code.  The suffix test [file.endswith(dtype)] also runs for the
    "all" sentinel: of the two entries of [data] only the one whose name
    ends with "all" is read and returned; [b.txt] is dropped. *)
Theorem all_sentinel_keeps_only_matching_names (L : Libs) :
  @os_listdir "data" all_world = (all_world, inr ["b.txt"; "x.all"]) ∧
  @read_dir_contents_async L "data" "all" all_world
    = (entered all_world (Call_read_file_async "data/x.all"),
       inr {["x.all" := PStr "y"]}).
Proof. split; vm_compute; reflexivity. Qed.

(** C4, on the code.  The directory [data] holds a sub-directory named
    [a.json]: the task [read_json_async] of that entry raises
    [IsADirectoryError], for which it has no handler; the exception leaves
    the task, [gather] raises it, and [read_dir_contents_async] fails though
    the task of [b.json] ran to its end. *)
Theorem task_exception_escapes_async_reader :
  @read_json_async sample_libs "data/a.json" nested_world
    = (entered nested_world (Call_read_json_async "data/a.json"),
       inl (IsADirectoryError "data/a.json")) ∧
  @read_dir_contents_async sample_libs "data" "json" nested_world
    = (World (fs nested_world) []
         [Call_read_json_async "data/a.json"; Call_read_json_async "data/b.json"],
       inl (IsADirectoryError "data/a.json")).
Proof. split; vm_compute; reflexivity. Qed.

(** C7.  When the path does not exist, or exists and is not a directory, the
    directory readers return the empty mapping, whatever the dtype, and
    leave the world as it is. *)
Theorem read_dir_contents_no_directory `{Libs} path dtype w :
  path_exists (fs w) path = false ∨
    (path_exists (fs w) path = true ∧ path_isdir (fs w) path = false) →
  read_dir_contents path dtype w = (w, inr ∅) ∧
  read_dir_contents_async path dtype w = (w, inr ∅).
Proof.
  intros Hno.
  assert (path_exists (fs w) path && path_isdir (fs w) path = false) as E.
  { destruct Hno as [->|[-> ->]]; done. }
  unfold read_dir_contents, read_dir_contents_async, os_path_exists, os_path_isdir.
  run. rewrite E. split; [done|]. unfold gather. by destruct w.
Qed.

(** C7, witness: a path that does not exist and the regular file [notes]. *)
Lemma read_dir_contents_no_directory_witness :
  (@read_dir_contents sample_libs "missing" "json" sample_world = (sample_world, inr ∅) ∧
   @read_dir_contents_async sample_libs "missing" "json" sample_world
     = (sample_world, inr ∅)) ∧
  (@read_dir_contents sample_libs "notes" "txt" sample_world = (sample_world, inr ∅) ∧
   @read_dir_contents_async sample_libs "notes" "txt" sample_world
     = (sample_world, inr ∅)).
Proof.
  split.
  - apply (@read_dir_contents_no_directory sample_libs "missing" "json" sample_world).
    left. reflexivity.
  - apply (@read_dir_contents_no_directory sample_libs "notes" "txt" sample_world).
    right. split; reflexivity.
Defined.



(** C9, as amended.  When the target path does not exist the directory
    writers call [os.makedirs] before anything else.  Where it returns, the
    path and every prefix of it are directories in the world the entries
    are then written in, and no helper has been entered before; where it
    raises (a regular file on the way, an empty path), the exception reaches
    the caller and no entry is written.  The path is taken not to end with
    a "." component, for which [os.makedirs] may return without having
    created anything. *)
Theorem writers_create_directory_first `{Libs} path contents dtype w :
  path_exists (fs w) path = false →
  leaf path ≠ "." →
  match os_makedirs path w with
  | (w1, inr _) =>
      path_isdir (fs w1) path = true ∧
      (∀ head rest, path = head +:+ "/" +:+ rest → head ≠ "" →
                    path_isdir (fs w1) head = true) ∧
      calls w1 = calls w ∧
      write_contents_to_dir path contents dtype w
        = for_each contents (write_entry path dtype) () w1 ∧
      write_contents_to_dir_async path contents dtype w
        = (gather (write_task path dtype <$> contents);; mret ()) w1
  | (w1, inl e) =>
      calls w1 = calls w ∧
      write_contents_to_dir path contents dtype w = (w1, inl e) ∧
      write_contents_to_dir_async path contents dtype w = (w1, inl e)
  end.
Proof.
  intros Hex Hleaf.
  pose proof (os_makedirs_log path w) as [_ Hcalls].
  destruct (os_makedirs path w) as [w1 [e|[]]] eqn:Hmk; simpl in Hcalls.
  - unfold write_contents_to_dir, write_contents_to_dir_async, os_path_exists. run.
    by rewrite Hex, Hmk.
  - destruct (os_makedirs_inv _ _ _ Hleaf Hmk) as [[loc Hloc] _].
    repeat split; [| |done|..].
    + unfold path_isdir. by rewrite Hloc.
    + intros head rest -> Hhead. by eapply locate_head.
    + unfold write_contents_to_dir, os_path_exists. run. by rewrite Hex, Hmk.
    + unfold write_contents_to_dir_async, os_path_exists. run. by rewrite Hex, Hmk.
Qed.

(** C9, counterexample.  [notes/out] does not exist, and cannot: [notes] is
    a regular file.  The writer raises and there is no directory
    afterwards. *)
Lemma directory_not_created_under_a_file :
  path_exists (fs sample_world) "notes/out" = false ∧
  @write_contents_to_dir sample_libs "notes/out" [("a", PStr "x")] "txt" sample_world
    = (sample_world, inl (NotADirectoryError "notes/out")) ∧
  path_isdir (fs sample_world) "notes/out" = false.
Proof. repeat split; vm_compute; reflexivity. Qed.

(** Why the path is taken not to end with ".": [os.makedirs] passes over the
    [FileExistsError] of a head it tried to create and returns at once for a
    tail ".", here with the regular file [notes] as the head. *)
Example makedirs_returns_without_directory :
  path_exists (fs sample_world) "a/../notes/." = false ∧
  (∃ w1, os_makedirs "a/../notes/." sample_world = (w1, inr ()) ∧
         path_isdir (fs w1) "a/../notes/." = false).
Proof. split; [reflexivity|]. eexists. split; vm_compute; reflexivity. Qed.

(** C9, witness: [out/new] under the root, where neither exists. *)
Lemma writers_create_directory_first_witness :
  ∃ w1, os_makedirs "out/new" sample_world = (w1, inr ()) ∧
        path_isdir (fs w1) "out/new" = true ∧
        path_isdir (fs w1) "out" = true ∧
        @write_contents_to_dir sample_libs "out/new" [("a", PStr "x")] "txt" sample_world
          = for_each [("a", PStr "x")] (@write_entry sample_libs "out/new" "txt") () w1.
Proof.
  pose proof (@writers_create_directory_first sample_libs "out/new" [("a", PStr "x")]
                "txt" sample_world eq_refl) as Hthm.
  destruct (os_makedirs "out/new" sample_world) as [w1 [e|[]]] eqn:Hmk;
    [by vm_compute in Hmk|].
  destruct Hthm as (Hdir & Hheads & _ & Hsync & _).
  { intros E. vm_compute in E. discriminate E. }
  exists w1. repeat split; [done| |done].
  by apply (Hheads "out" "new").
Defined.

(** C10, as amended.  When the path names a regular file the directory
    writers create no directory and raise nothing: the entries are written
    in the world of the call, and the call returns.  Entry by entry, in
    every world in which the path names a regular file: the path still names
    a regular file after the entry; an entry whose identifier does not begin
    with "/" is given a file path under the regular file, so its write fails
    and is swallowed, with one line of diagnostic and the tree left as it
    was; for an identifier that begins with "/", [os.path.join] drops the
    directory path and the file path is the identifier followed by "." and
    the dtype.  So a mapping without such identifiers prints one line per
    entry and leaves the tree as it was. *)
Theorem writers_write_nothing_under_a_file `{Libs} path contents dtype w :
  path_exists (fs w) path = true →
  path_isdir (fs w) path = false →
  (write_contents_to_dir path contents dtype w
     = for_each contents (write_entry path dtype) () w ∧
   ∃ w', write_contents_to_dir path contents dtype w = (w', inr ())) ∧
  (write_contents_to_dir_async path contents dtype w
     = (gather (write_task path dtype <$> contents);; mret ()) w ∧
   ∃ w', write_contents_to_dir_async path contents dtype w = (w', inr ())) ∧
  (∀ (item : string * pyval) w0,
     path_exists (fs w0) path = true → path_isdir (fs w0) path = false →
     (path_exists (fs (write_entry path dtype () item w0).1) path = true ∧
      path_isdir (fs (write_entry path dtype () item w0).1) path = false ∧
      path_exists (fs (write_task path dtype item w0).1) path = true ∧
      path_isdir (fs (write_task path dtype item w0).1) path = false) ∧
     (str_startswith item.1 "/" = false →
      (∃ line c, write_entry path dtype () item w0
         = (World (fs w0) (stdout w0 ++ [line]) (calls w0 ++ [c]), inr ())) ∧
      (∃ line c, write_task path dtype item w0
         = (World (fs w0) (stdout w0 ++ [line]) (calls w0 ++ [c]), inr ()))) ∧
     (str_startswith item.1 "/" = true →
      os_path_join path (item.1 +:+ "." +:+ dtype) = item.1 +:+ "." +:+ dtype)) ∧
  (Forall (λ item : string * pyval, str_startswith item.1 "/" = false) contents →
   (∃ lines cs, length lines = length contents ∧
      write_contents_to_dir path contents dtype w
        = (World (fs w) (stdout w ++ lines) (calls w ++ cs), inr ())) ∧
   (∃ lines cs, length lines = length contents ∧
      write_contents_to_dir_async path contents dtype w
        = (World (fs w) (stdout w ++ lines) (calls w ++ cs), inr ()))).
Proof.
  intros Hex Hdir.
  assert (∃ loc d, locate (fs w) path = inr (loc, Some (File d))) as (loc & d & Hloc)
    by (by apply names_a_file).
  split; [|split; [|split]].
  - pose proof (write_contents_to_dir_outcome path contents dtype w) as Hs.
    rewrite Hex in Hs. split; [|done].
    unfold write_contents_to_dir, os_path_exists. run. by rewrite Hex.
  - pose proof (write_contents_to_dir_async_outcome path contents dtype w) as Ha.
    rewrite Hex in Ha. split; [|done].
    unfold write_contents_to_dir_async, os_path_exists. run. by rewrite Hex.
  - intros item w0 Hex0 Hdir0. split; [|split].
    + destruct (write_entry_file_stays path dtype item path w0) as [[? ?] [? ?]]; done.
    + intros Hk.
      assert (∃ loc0 d0, locate (fs w0) path = inr (loc0, Some (File d0)))
        as (loc0 & d0 & Hloc0) by (by apply names_a_file).
      by apply (write_entry_under_file path dtype item loc0 d0 w0).
    + intros Hk. by apply os_path_join_absolute.
  - intros Hkeys. split.
    + unfold write_contents_to_dir, os_path_exists. run. rewrite Hex.
      enough (∀ w0, fs w0 = fs w →
        ∃ lines cs, length lines = length contents ∧
          for_each contents (write_entry path dtype) () w0
            = (World (fs w) (stdout w0 ++ lines) (calls w0 ++ cs), inr ())) as Hloop
        by (apply Hloop; done).
      induction Hkeys as [|item contents Hk _ IH]; intros w0 Hfs.
      * exists [], []. rewrite !app_nil_r, <-Hfs. by rewrite world_eta.
      * rewrite <-Hfs in Hloc.
        destruct (write_entry_under_file path dtype item _ _ w0 Hloc Hk)
          as [(line & c & E) _].
        cbn [for_each]. run. rewrite E.
        destruct (IH (World (fs w0) (stdout w0 ++ [line]) (calls w0 ++ [c])) Hfs)
          as (lines & cs & Hlen & ->).
        exists (line :: lines), (c :: cs). simpl. rewrite Hlen.
        by rewrite <-!(assoc_L (++)).
    + unfold write_contents_to_dir_async, os_path_exists, gather. run. rewrite Hex.
      enough (∀ w0, fs w0 = fs w →
        ∃ lines cs, length lines = length contents ∧
          run_all (write_task path dtype <$> contents) w0
            = (World (fs w) (stdout w0 ++ lines) (calls w0 ++ cs),
               inr <$> replicate (length contents) ())) as Hloop.
      { destruct (Hloop w eq_refl) as (lines & cs & Hlen & ->).
        exists lines, cs. split; [done|].
        assert (∀ n, first_exception (inr <$> replicate n ())
                     = (inr (replicate n ()) : exn + list ())) as Hfirst.
        { intros n. induction n as [|n IH]; [done|].
          cbn [replicate]. rewrite fmap_cons. cbn [first_exception]. by rewrite IH. }
        by rewrite Hfirst. }
      induction Hkeys as [|item contents Hk _ IH]; intros w0 Hfs.
      * exists [], []. rewrite !app_nil_r, <-Hfs. by rewrite world_eta.
      * rewrite <-Hfs in Hloc.
        destruct (write_entry_under_file path dtype item _ _ w0 Hloc Hk)
          as [_ (line & c & E)].
        rewrite fmap_cons. cbn [run_all]. rewrite E.
        destruct (IH (World (fs w0) (stdout w0 ++ [line]) (calls w0 ++ [c])) Hfs)
          as (lines & cs & Hlen & ->).
        exists (line :: lines), (c :: cs). simpl. rewrite Hlen.
        by rewrite <-!(assoc_L (++)).
Qed.

(** C10, counterexample.  The target [notes] is a regular file, and the
    identifier of the entry begins with "/": [os.path.join] returns
    "/x.txt", and the entry is written there.  The tree is not left as it
    was. *)
Lemma absolute_identifier_is_written :
  path_exists (fs sample_world) "notes" = true ∧
  path_isdir (fs sample_world) "notes" = false ∧
  os_path_join "notes" ("/x" +:+ "." +:+ "txt") = "/x.txt" ∧
  @write_contents_to_dir sample_libs "notes" [("/x", PStr "hi")] "txt" sample_world
    = (World (Dir [("notes", File "hello");
                   ("data", Dir [("a.json", File "{}"); ("b.txt", File "x")]);
                   ("x.txt", File "hi")])
         [] [Call_write_file "/x.txt"], inr ()).
Proof. repeat split; vm_compute; reflexivity. Qed.

(** C10, witness: two entries written to the regular file [notes], and the
    entry ["a"] on its own. *)
Lemma writers_write_nothing_under_a_file_witness :
  ((∃ lines cs, length lines = 2 ∧
      @write_contents_to_dir sample_libs "notes" [("a", PStr "x"); ("b", PDict [])] "json"
        sample_world
        = (World (fs sample_world) (stdout sample_world ++ lines)
             (calls sample_world ++ cs), inr ())) ∧
   (∃ lines cs, length lines = 2 ∧
      @write_contents_to_dir_async sample_libs "notes" [("a", PStr "x"); ("b", PDict [])]
        "json" sample_world
        = (World (fs sample_world) (stdout sample_world ++ lines)
             (calls sample_world ++ cs), inr ()))) ∧
  (∃ line c, @write_entry sample_libs "notes" "json" () ("a", PStr "x") sample_world
     = (World (fs sample_world) (stdout sample_world ++ [line])
          (calls sample_world ++ [c]), inr ())).
Proof.
  destruct (@writers_write_nothing_under_a_file sample_libs "notes"
              [("a", PStr "x"); ("b", PDict [])] "json" sample_world eq_refl eq_refl)
    as (_ & _ & Hentry & Hall).
  split.
  - apply Hall. repeat constructor.
  - destruct (Hentry ("a", PStr "x") sample_world eq_refl eq_refl) as (_ & Hrel & _).
    by apply Hrel.
Defined.

(** * Further properties *)

(** X1.  No reader changes the directory tree: after [read_file],
    [read_json], [read_df], their async counterparts and the two directory
    readers the tree is the one before the call, whatever the path, the
    dtype and the outcome (a value, a default after a diagnostic, or an
    exception that escapes the JSON readers). *)
Theorem readers_leave_the_tree_unchanged `{Libs} path dtype w :
  fs (read_file path w).1 = fs w ∧
  fs (read_file_async path w).1 = fs w ∧
  fs (read_json path w).1 = fs w ∧
  fs (read_json_async path w).1 = fs w ∧
  fs (read_df path dtype w).1 = fs w ∧
  fs (read_dir_contents path dtype w).1 = fs w ∧
  fs (read_dir_contents_async path dtype w).1 = fs w.
Proof.
  split; [apply keeps_fs_read_file|].
  split; [apply keeps_fs_read_file_async|].
  split; [apply keeps_fs_read_json|].
  split; [apply keeps_fs_read_json_async|].
  split; [apply keeps_fs_read_df|].
  split; [apply keeps_fs_read_dir_contents|apply keeps_fs_read_dir_contents_async].
Qed.







(** X5.  [write_json] and [write_json_async] open the path with ".json"
    appended unless it already ends with it.  Where that path can be opened
    for writing and the value is serialisable, they return without printing
    and the file holds the serialisation; when [json.loads] gives the value
    back from the text read, [read_json] and [read_json_async] of that path
    return the value without printing. *)
Theorem write_json_then_read_json `{Libs} path v indent w :
  opens (json_path path) w →
  (json_encode indent v).2 = true →
  json_loads (universal_newlines (json_encode indent v).1) = Some v →
  (∃ w1, write_json path v indent w = (w1, inr ()) ∧
         stdout w1 = stdout w ∧
         file_content w1 (json_path path) = Some (json_encode indent v).1 ∧
         read_json (json_path path) w1
           = (entered w1 (Call_read_json (json_path path)), inr v)) ∧
  (∃ w1, write_json_async path v indent w = (w1, inr ()) ∧
         stdout w1 = stdout w ∧
         file_content w1 (json_path path) = Some (json_encode indent v).1 ∧
         read_json_async (json_path path) w1
           = (entered w1 (Call_read_json_async (json_path path)), inr v)).
Proof.
  intros [loc Hopen] Hcomplete Hloads.
  assert (∀ c, (open_w (json_path path) (entered w c)).2 = inr loc) as Hc
    by (intros c; by rewrite open_w_calls).
  split.
  - destruct (store_file (json_path path) (json_encode indent v).1 _ loc
                (Hc (Call_write_json path))) as [Hw Hloc].
    unfold write_json, write_json_try. fold (json_path path).
    destruct (json_encode indent v) as [text complete]. simpl in *. subst complete.
    run. unfold entered in Hw, Hloc. run. clear Hopen.
    destruct (open_w (json_path path) _) as [w0 [e|loc0]]; simpl in Hw; [done|].
    destruct (append_at loc0 text w0) as [w1 [e|[]]]; [done|].
    injection Hw as ->. eexists. split; [done|]. split; [done|].
    assert (file_content (World (put (fs w) loc (File text)) (stdout w)
              (calls w ++ [Call_write_json path])) (json_path path) = Some text) as Hf
      by (unfold file_content; cbn [fs]; by rewrite Hloc).
    split; [done|]. unfold read_json, read_json_try. run.
    rewrite (read_text_file (json_path path) text);
      [|unfold file_content; cbn [fs]; by rewrite Hloc].
    by rewrite Hloads.
  - destruct (store_file (json_path path) (json_encode indent v).1 _ loc
                (Hc (Call_write_json_async path))) as [Hw Hloc].
    unfold write_json_async, write_json_async_try. fold (json_path path).
    destruct (json_encode indent v) as [text complete]. simpl in *. subst complete.
    run. unfold entered in Hw, Hloc. run. clear Hopen.
    destruct (open_w (json_path path) _) as [w0 [e|loc0]]; simpl in Hw; [done|].
    rewrite Hw. eexists. split; [done|]. split; [done|].
    assert (file_content (World (put (fs w) loc (File text)) (stdout w)
              (calls w ++ [Call_write_json_async path])) (json_path path) = Some text)
      as Hf by (unfold file_content; cbn [fs]; by rewrite Hloc).
    split; [done|]. unfold read_json_async, read_json_try. run.
    rewrite (read_text_file (json_path path) text);
      [|unfold file_content; cbn [fs]; by rewrite Hloc].
    by rewrite Hloads.
Qed.

(** X5, witness: the empty object written to [data/cfg], that is to the new
    file [data/cfg.json]. *)
Lemma write_json_then_read_json_witness :
  (∃ w1, @write_json sample_libs "data/cfg" (PDict []) 4 sample_world = (w1, inr ()) ∧
         stdout w1 = stdout sample_world ∧
         file_content w1 (json_path "data/cfg")
           = Some (@json_encode sample_libs 4 (PDict [])).1 ∧
         @read_json sample_libs (json_path "data/cfg") w1
           = (entered w1 (Call_read_json (json_path "data/cfg")), inr (PDict []))) ∧
  (∃ w1, @write_json_async sample_libs "data/cfg" (PDict []) 4 sample_world
           = (w1, inr ()) ∧
         stdout w1 = stdout sample_world ∧
         file_content w1 (json_path "data/cfg")
           = Some (@json_encode sample_libs 4 (PDict [])).1 ∧
         @read_json_async sample_libs (json_path "data/cfg") w1
           = (entered w1 (Call_read_json_async (json_path "data/cfg")),
              inr (PDict []))).
Proof.
  apply (@write_json_then_read_json sample_libs "data/cfg" (PDict []) 4 sample_world).
  - eexists. vm_compute. reflexivity.
  - reflexivity.
  - reflexivity.
Defined.



(** X7.  A write that fails after [open] has lost the old content.  Where
    [open(path, "w")] succeeds and the value is not a [str], [write_file]
    and [write_file_async] return after printing one line, and the file is
    there and empty, whatever it held before. *)
Theorem failed_write_leaves_an_empty_file path v w :
  opens path w →
  (∀ text, v ≠ PStr text) →
  (∃ w1 line, write_file path v w = (w1, inr ()) ∧
              stdout w1 = stdout w ++ [line] ∧ file_content w1 path = Some "") ∧
  (∃ w1 line, write_file_async path v w = (w1, inr ()) ∧
              stdout w1 = stdout w ++ [line] ∧ file_content w1 path = Some "").
Proof.
  intros [loc Hopen] Hv.
  destruct (open_w_inv _ _ _ Hopen) as (o & Hloc & Hrep & _).
  pose proof (locate_put_self _ _ _ _ (File "") Hloc Hrep) as Hloc1.
  assert (∀ c, open_w path (entered w c)
               = (World (put (fs w) loc (File "")) (stdout w) (calls w ++ [c]), inr loc))
    as Hc.
  { intros c. pose proof (open_w_calls path w c) as E. rewrite Hopen in E.
    by destruct (open_w_inv _ _ _ E) as (? & _ & _ & ->). }
  split.
  - specialize (Hc (Call_write_file path)). unfold write_file, write_file_try.
    run. unfold entered in Hc. run. rewrite Hc.
    destruct v; try (by destruct (Hv s));
      (eexists _, _; split; [done|]; split; [done|]);
      unfold file_content; cbn [fs]; by rewrite Hloc1.
  - specialize (Hc (Call_write_file_async path)). unfold write_file_async, write_file_try.
    run. unfold entered in Hc. run. rewrite Hc.
    destruct v; try (by destruct (Hv s));
      (eexists _, _; split; [done|]; split; [done|]);
      unfold file_content; cbn [fs]; by rewrite Hloc1.
Qed.

(** X7, witness: an object given to [write_file] for the file [notes]. *)
Lemma failed_write_leaves_an_empty_file_witness :
  (∃ w1 line, write_file "notes" (PDict []) sample_world = (w1, inr ()) ∧
              stdout w1 = stdout sample_world ++ [line] ∧
              file_content w1 "notes" = Some "") ∧
  (∃ w1 line, write_file_async "notes" (PDict []) sample_world = (w1, inr ()) ∧
              stdout w1 = stdout sample_world ++ [line] ∧
              file_content w1 "notes" = Some "").
Proof.
  apply (failed_write_leaves_an_empty_file "notes" (PDict []) sample_world).
  - eexists. vm_compute. reflexivity.
  - discriminate.
Defined.

(** X8.  A value that [json.dumps] cannot serialise: where the path can be
    opened, both JSON writers return after printing one line, but they
    leave different files.  [write_json] streams with [json.dump], so the
    file holds the text produced before the failure; [write_json_async]
    serialises before it writes, so the file is empty. *)
Theorem unserialisable_json_partial_or_empty `{Libs} path v indent w :
  opens (json_path path) w →
  (json_encode indent v).2 = false →
  (∃ w1 line, write_json path v indent w = (w1, inr ()) ∧
              stdout w1 = stdout w ++ [line] ∧
              file_content w1 (json_path path) = Some (json_encode indent v).1) ∧
  (∃ w1 line, write_json_async path v indent w = (w1, inr ()) ∧
              stdout w1 = stdout w ++ [line] ∧
              file_content w1 (json_path path) = Some "").
Proof.
  intros [loc Hopen] Hpartial.
  destruct (open_w_inv _ _ _ Hopen) as (o & Hloc & Hrep & _).
  split.
  - rewrite <-(open_w_calls _ _ (Call_write_json path)) in Hopen.
    destruct (store_file (json_path path) (json_encode indent v).1 _ loc Hopen)
      as [Hw Hloc2].
    unfold write_json, write_json_try. fold (json_path path).
    destruct (json_encode indent v) as [text complete]. simpl in *. subst complete.
    run. unfold entered in Hw, Hloc2. run. clear Hopen.
    destruct (open_w (json_path path) _) as [w0 [e|loc0]]; simpl in Hw; [done|].
    rewrite Hw. eexists _, _. split; [done|]. split; [done|].
    unfold file_content. cbn [fs]. by rewrite Hloc2.
  - pose proof (locate_put_self _ _ _ _ (File "") Hloc Hrep) as Hloc1.
    pose proof (open_w_calls (json_path path) w (Call_write_json_async path)) as E.
    rewrite Hopen in E. destruct (open_w_inv _ _ _ E) as (? & _ & _ & Hc).
    unfold write_json_async, write_json_async_try. fold (json_path path).
    destruct (json_encode indent v) as [text complete]. simpl in *. subst complete.
    run. unfold entered in Hc. run. rewrite Hc.
    eexists _, _. split; [done|]. split; [done|].
    unfold file_content. cbn [fs]. by rewrite Hloc1.
Qed.

(** X8, witness: a list with a boolean and a frame.  [json.dump] has
    written the opening bracket, the boolean and the separator when it meets
    the frame; [json.dumps] has written nothing. *)
Lemma unserialisable_json_partial_or_empty_witness :
  (∃ w1 line,
     @write_json streaming_libs "data/a" (PList [PBool true; PFrame empty_frame]) 4
       sample_world = (w1, inr ()) ∧
     stdout w1 = stdout sample_world ++ [line] ∧
     file_content w1 (json_path "data/a")
       = Some (@json_encode streaming_libs 4 (PList [PBool true; PFrame empty_frame])).1) ∧
  (∃ w1 line,
     @write_json_async streaming_libs "data/a" (PList [PBool true; PFrame empty_frame]) 4
       sample_world = (w1, inr ()) ∧
     stdout w1 = stdout sample_world ++ [line] ∧
     file_content w1 (json_path "data/a") = Some "") ∧
  (@json_encode streaming_libs 4 (PList [PBool true; PFrame empty_frame])).1
    = "[" +:+ String LF "    true," +:+ String LF "    ".
Proof.
  split; [|split; [|reflexivity]];
    apply (@unserialisable_json_partial_or_empty streaming_libs "data/a"
             (PList [PBool true; PFrame empty_frame]) 4 sample_world);
    try reflexivity; eexists; vm_compute; reflexivity.
Defined.

(** X9.  A per-file writer changes at most the file it opens: every other
    regular file of the tree has the same content after [write_file],
    [write_file_async] and [write_df] as before, whatever the value and the
    outcome of the write, and the same holds for [write_json] and
    [write_json_async] with the path they open. *)
Theorem per_file_writers_change_one_file `{Libs} path v indent dtype w loc d :
  get (fs w) loc = Some (File d) →
  ((open_w path w).2 ≠ inr loc →
   get (fs (write_file path v w).1) loc = Some (File d) ∧
   get (fs (write_file_async path v w).1) loc = Some (File d) ∧
   get (fs (write_df path v dtype w).1) loc = Some (File d)) ∧
  ((open_w (json_path path) w).2 ≠ inr loc →
   get (fs (write_json path v indent w).1) loc = Some (File d) ∧
   get (fs (write_json_async path v indent w).1) loc = Some (File d)).
Proof.
  intros Hg.
  assert (∀ A p (m : M A), writes_at_most p m → (open_w p w).2 ≠ inr loc →
            get (fs (m w).1) loc = Some (File d)) as Hone.
  { intros A p m Hm Hne. destruct (Hm w) as [->|(q & text & Hopen & ->)]; [done|].
    destruct (open_w_inv _ _ _ Hopen) as (o & _ & Hrep & _).
    destruct (get_put_other (fs w) q (File text) loc (File d) Hrep Hg)
      as (n' & Hg' & _ & Hsame); [congruence|].
    by rewrite Hg', Hsame. }
  split; intros Hne.
  - split; [|split]; apply (Hone _ path); try done.
    + apply writes_at_most_write_file.
    + apply writes_at_most_write_file.
    + apply writes_at_most_write_df.
  - split; apply (Hone _ (json_path path)); try done.
    + apply writes_at_most_write_json.
    + apply writes_at_most_write_json.
Qed.

(** X9, witness: the file [data/b.txt] while [data/a] and [data/a.json] are
    written. *)
Lemma per_file_writers_change_one_file_witness :
  (get (fs (write_file "data/a" (PStr "bye") sample_world).1) ["data"; "b.txt"]
     = Some (File "x") ∧
   get (fs (write_file_async "data/a" (PStr "bye") sample_world).1) ["data"; "b.txt"]
     = Some (File "x") ∧
   get (fs (@write_df sample_libs "data/a" (PStr "bye") "csv" sample_world).1)
     ["data"; "b.txt"] = Some (File "x")) ∧
  (get (fs (@write_json sample_libs "data/a" PNone 4 sample_world).1) ["data"; "b.txt"]
     = Some (File "x") ∧
   get (fs (@write_json_async sample_libs "data/a" PNone 4 sample_world).1)
     ["data"; "b.txt"] = Some (File "x")).
Proof.
  destruct (@per_file_writers_change_one_file sample_libs "data/a" (PStr "bye") 4 "csv"
              sample_world ["data"; "b.txt"] "x" eq_refl) as [Hfile Hjson].
  split; [apply Hfile|apply Hjson]; vm_compute; discriminate.
Defined.

(** X10.  No writer removes anything: every entry of the tree before
    [write_file], [write_json], [write_df], their async counterparts or one
    of the two directory writers is an entry of the tree after it, under the
    same names, a directory still a directory and a regular file still a
    regular file.  This holds for every path, value and dtype, and also
    when the call prints a diagnostic or [os.makedirs] raises. *)
Theorem writers_remove_nothing `{Libs} path v indent dtype contents w :
  extends (fs w) (fs (write_file path v w).1) ∧
  extends (fs w) (fs (write_file_async path v w).1) ∧
  extends (fs w) (fs (write_json path v indent w).1) ∧
  extends (fs w) (fs (write_json_async path v indent w).1) ∧
  extends (fs w) (fs (write_df path v dtype w).1) ∧
  extends (fs w) (fs (write_contents_to_dir path contents dtype w).1) ∧
  extends (fs w) (fs (write_contents_to_dir_async path contents dtype w).1).
Proof.
  split; [eapply writes_at_most_keeps_entries, writes_at_most_write_file|].
  split; [eapply writes_at_most_keeps_entries, writes_at_most_write_file|].
  split; [eapply writes_at_most_keeps_entries, writes_at_most_write_json|].
  split; [eapply writes_at_most_keeps_entries, writes_at_most_write_json|].
  split; [eapply writes_at_most_keeps_entries, writes_at_most_write_df|].
  split.
  - apply (keeps_entries_bind (os_path_exists path)).
    { apply keeps_fs_keeps_entries, keeps_fs_lift_os. }
    intros ex. apply keeps_entries_bind.
    { destruct ex; [by apply keeps_fs_keeps_entries|apply keeps_entries_os_makedirs]. }
    intros _. apply keeps_entries_for_each. intros. apply keeps_entries_write_entry.
  - apply (keeps_entries_bind (os_path_exists path)).
    { apply keeps_fs_keeps_entries, keeps_fs_lift_os. }
    intros ex. apply keeps_entries_bind.
    { destruct ex; [by apply keeps_fs_keeps_entries|apply keeps_entries_os_makedirs]. }
    intros _. apply keeps_entries_bind; [|intros ?; by apply keeps_fs_keeps_entries].
    apply keeps_entries_gather, Forall_fmap, Forall_forall. intros item _.
    apply keeps_entries_write_task.
Qed.







(** X15.  The asynchronous round trip, under the conditions of the
    synchronous one and for a tag other than the "all" sentinel: the async
    writer returns, and when it has printed no diagnostic (every file could
    be opened and written) the names of the directory that end with the tag
    are the file names of the entries, one file per entry in some order, and
    the async reader returns exactly the mapping. *)
Theorem async_write_then_read_round_trips `{Libs} path contents dtype w :
  dtype ≠ "" → str_has dot dtype = false → str_has slash dtype = false →
  is_frame_dtype dtype = false → dtype ≠ "all" →
  directory_ready path dtype w →
  NoDup contents.*1 →
  Forall (λ item : string * pyval,
            file_name item.1 ∧ str_contains ("." +:+ dtype) item.1 = false ∧
            round_trips dtype item.2) contents →
  ∃ w1,
    write_contents_to_dir_async path contents dtype w = (w1, inr ()) ∧
    (stdout w1 = stdout w →
     ∃ w2 files,
       os_listdir path w1 = (w1, inr files) ∧
       matching dtype files ≡ₚ entry_name dtype <$> contents.*1 ∧
       read_dir_contents_async path dtype w1 = (w2, inr (dict_of_items contents))).
Proof.
  intros Hne Hdot Hslash Hframe Hall Hready Hnd Hitems.
  destruct (async_round_trip_in_list_order path contents dtype w)
    as (w1 & w2 & files & Hwrite & Hlist & Hmatch & Hread); [done..|].
  exists w1. split; [done|]. intros _. exists w2, files. by rewrite Hmatch.
Qed.

(** X15, witness: two JSON values written to a directory that is
    created. *)
Lemma async_write_then_read_round_trips_witness :
  ∃ w1 w2 files,
    @write_contents_to_dir_async sample_libs "out/new" [("a", PDict []); ("b", PNone)]
      "json" sample_world = (w1, inr ()) ∧
    stdout w1 = stdout sample_world ∧
    os_listdir "out/new" w1 = (w1, inr files) ∧
    matching "json" files ≡ₚ entry_name "json" <$> [("a", PDict []); ("b", PNone)].*1 ∧
    @read_dir_contents_async sample_libs "out/new" "json" w1
      = (w2, inr (dict_of_items [("a", PDict []); ("b", PNone)])).
Proof.
  destruct (@async_write_then_read_round_trips sample_libs "out/new"
              [("a", PDict []); ("b", PNone)] "json" sample_world)
    as (w1 & Hwrite & Hread); try reflexivity.
  - discriminate.
  - discriminate.
  - left. split; [reflexivity|]. split; [vm_compute; discriminate|].
    eexists. vm_compute. reflexivity.
  - vm_compute. repeat constructor; set_solver.
  - repeat constructor.
  - assert (stdout w1 = stdout sample_world) as Hout.
    { vm_compute in Hwrite. by injection Hwrite as <-. }
    destruct (Hread Hout) as (w2 & files & ? & ? & ?). by exists w1, w2, files.
Defined.



(** X19.  With one of the tags csv, xlsx and pickle the synchronous
    directory writer hands every entry to [write_df]: for a mapping none of
    whose values is a frame and a path that exists, it returns, the tree is
    the one before the call (no file is created or emptied) and one line is
    printed for every entry. *)
Theorem tabular_writer_drops_what_is_not_a_frame `{Libs} path contents dtype w :
  is_frame_dtype dtype = true →
  path_exists (fs w) path = true →
  Forall (λ item : string * pyval, ∀ f, item.2 ≠ PFrame f) contents →
  ∃ w1, write_contents_to_dir path contents dtype w = (w1, inr ()) ∧
        fs w1 = fs w ∧
        length (stdout w1) = (length (stdout w) + length contents)%nat.
Proof.
  intros Hframe Hex Hitems.
  assert (dtype ≠ "json") as Hjson by (by intros ->).
  unfold write_contents_to_dir, os_path_exists. run. rewrite Hex.
  clear Hex. revert w. induction Hitems as [|item contents Hitem _ IH]; intros w.
  - exists w. split; [done|]. split; [done|]. simpl. lia.
  - cbn [for_each]. run. unfold write_entry at 1.
    rewrite bool_decide_eq_false_2, Hframe by done.
    destruct (write_df_not_a_frame (os_path_join path (item.1 +:+ "." +:+ dtype))
                item.2 dtype w Hitem) as [line ->].
    destruct (IH (printed (entered w (Call_write_df
                (os_path_join path (item.1 +:+ "." +:+ dtype)) dtype)) line))
      as (w1 & -> & Hfs & Hout).
    exists w1. split; [done|]. split; [done|].
    rewrite Hout. unfold printed, entered. cbn [stdout]. rewrite length_app. simpl. lia.
Qed.

(** X19, witness: a text written with the csv tag to the directory
    [data]. *)
Lemma tabular_writer_drops_what_is_not_a_frame_witness :
  ∃ w1, @write_contents_to_dir sample_libs "data" [("t", PStr "a,b")] "csv" sample_world
          = (w1, inr ()) ∧
        fs w1 = fs sample_world ∧
        length (stdout w1)
          = (length (stdout sample_world) + length [("t", PStr "a,b")])%nat.
Proof.
  apply (@tabular_writer_drops_what_is_not_a_frame sample_libs "data"
           [("t", PStr "a,b")] "csv" sample_world).
  - reflexivity.
  - reflexivity.
  - repeat constructor. discriminate.
Defined.
